(** * Verification of the YOLOv5 evaluator (src/yolov5/core/evaluator.py)

    A shallow embedding of the detection matcher ([process_batch],
    [process_batch_masks]), the per-image stat recorder ([compute_stat]),
    the end-of-run aggregation ([after_infer]) and the [Metric] accessors,
    together with the properties the specification states about them.

    Conventions of the embedding.
    - Tensor entries (coordinates, confidences, IoU values, timings) are
      floating-point in the source; the evaluator only compares, copies and
      averages them, and they are modelled as rationals [Q].
    - Class ids are stored as floats holding integers; they are modelled
      as [Z].
    - An IoU of 0/0 is NaN in the source and fails every comparison; here
      it is the rational 0, which fails the comparison with the first
      threshold just the same.
    - Python exceptions are the constructors of [exn]; a computation that
      may raise returns a [result].
    - Collaborators that live outside evaluator.py ([box_iou], [mask_iou],
      [process_mask], [ap_per_class], ...) are the fields of the class
      [Collaborators]; every definition and theorem is generic in them. *)

From Stdlib Require Import QArith Qminmax ZArith Lia.
From stdpp Require Import base option list sorting strings gmap.

Local Open Scope Z_scope.
Local Open Scope nat_scope.

(** ** Python exceptions and the error monad *)

Inductive exn : Set :=
| IndexError
| AssertionError
| ZeroDivisionError
| KeyError
| ValueError
| RuntimeError
| ReferenceError.

Inductive result (A : Type) : Type :=
| Ok (a : A)
| Raise (e : exn).
Arguments Ok {A} a.
Arguments Raise {A} e.

Global Instance result_ret : MRet result := λ A a, Ok a.
Global Instance result_bind : MBind result := λ A B f m,
  match m with
  | Ok a => f a
  | Raise e => Raise e
  end.

(** [l[i]] for a non-negative index: [IndexError] when out of range. *)
Definition py_index {A} (l : list A) (i : nat) : result A :=
  match l !! i with
  | Some a => Ok a
  | None => Raise IndexError
  end.

(** ** Data model *)

Record Box : Set := mkBox { bx1 : Q; by1 : Q; bx2 : Q; by2 : Q }.

(** One row of a prediction tensor: [x1, y1, x2, y2, conf, cls] followed
    by the mask coefficients ([predn[:, 6:]]), empty for box-only models. *)
Record Detection : Set := mkDetection {
  d_box : Box;
  d_conf : Q;
  d_cls : Z;
  d_coef : list Q
}.

(** One row of [labelsn]: [cls, x1, y1, x2, y2]. *)
Record Label : Set := mkLabel { l_cls : Z; l_box : Box }.

(** One row of the [matches] array: [label, detection, iou]. *)
Record Match : Set := mkMatch { m_label : nat; m_det : nat; m_iou : Q }.

Abbreviation Tensor := (list Detection).
Abbreviation BoolMatrix := (list (list bool)).

(** [torch.zeros(n, k, dtype=torch.bool)] *)
Definition zeros (n k : nat) : BoolMatrix := replicate n (replicate k false).

(** ** numpy primitives used by the matcher *)

(** [a.argsort()]: indices that sort [a] ascending.  numpy leaves the order
    of equal keys unspecified, and its default kind is not stable; this
    model fixes one such order (a stable insertion sort).  The properties
    below use only that the result is a permutation that sorts [a], never
    where equal keys land. *)
Fixpoint insert_index (a : list Q) (i : nat) (l : list nat) : list nat :=
  match l with
  | [] => [i]
  | j :: l' =>
      if Qle_bool (nth i a 0%Q) (nth j a 0%Q) then i :: j :: l'
      else j :: insert_index a i l'
  end.

Definition np_argsort (a : list Q) : list nat :=
  foldr (insert_index a) [] (seq 0 (length a)).

(** The order [np_argsort] sorts by: index [i] comes no later than [j]. *)
Definition key_le (a : list Q) (i j : nat) : Prop :=
  Qle (nth i a 0%Q) (nth j a 0%Q).

(** Index of the first occurrence of [k] in [keys]. *)
Definition first_index (k : nat) (keys : list nat) : option nat :=
  fst <$> list_find (λ x, x = k) keys.

(** [np.unique(keys, return_index=True)[1]]: for every distinct key, in
    ascending key order, the index of its first occurrence. *)
Definition np_unique_index (keys : list nat) : list nat :=
  omap (λ k, first_index k keys) (merge_sort (≤) (remove_dups keys)).

(** [m[idx]] for an index array.  Every index array built below is in range
    (see [sort_by_iou_Permutation] and [unique_rows_keys]), so no row is
    ever dropped by [omap]. *)
Definition rows_at {A} (m : list A) (idx : list nat) : list A :=
  omap (λ i, m !! i) idx.

(** ** The greedy matcher shared by [process_batch] (lines 421-434) and
    [process_batch_masks] (lines 469-482) *)

(** [torch.where((iou >= thr) & (lcls[:, None] == dcls))] followed by the
    [torch.cat] of line 426: the candidate rows, in row-major order. *)
Definition where_matches (iou : nat → nat → Q) (thr : Q)
    (lcls dcls : list Z) : list Match :=
  mjoin (imap (λ i lc,
    mjoin (imap (λ j dc,
      if Qle_bool thr (iou i j) && (lc =? dc)%Z
      then [mkMatch i j (iou i j)] else []) dcls)) lcls).

(** Line 429: [matches[matches[:, 2].argsort()[::-1]]]. *)
Definition sort_by_iou (m : list Match) : list Match :=
  rows_at m (reverse (np_argsort (m_iou <$> m))).

(** Line 430: [matches[np.unique(matches[:, 1], return_index=True)[1]]]. *)
Definition dedup_detections (m : list Match) : list Match :=
  rows_at m (np_unique_index (m_det <$> m)).

(** Line 432: [matches[np.unique(matches[:, 0], return_index=True)[1]]].
    The re-sort by IoU of line 431 is commented out in the source. *)
Definition dedup_labels (m : list Match) : list Match :=
  rows_at m (np_unique_index (m_label <$> m)).

(** Lines 428-432. *)
Definition surviving (x : list Match) : list Match :=
  if decide (1 < length x)
  then dedup_labels (dedup_detections (sort_by_iou x))
  else x.

(** [v >= iouv], one boolean per threshold. *)
Definition thresholds_met (iouv : list Q) (v : Q) : list bool :=
  (λ t, Qle_bool t v) <$> iouv.

(** Line 434: [correct[matches[:, 1].long()] = matches[:, 2:3] >= iouv].
    The detection indices come from [torch.where], hence are in range. *)
Definition scatter (correct : BoolMatrix) (iouv : list Q)
    (matches : list Match) : BoolMatrix :=
  foldl (λ c m, <[m_det m := thresholds_met iouv (m_iou m)]> c)
        correct matches.

(** A row of a correctness matrix is monotone when a hit at a threshold
    index implies a hit at every smaller index. *)
Definition row_monotone (row : list bool) : Prop :=
  ∀ t1 t2, t1 ≤ t2 → row !! t2 = Some true → row !! t1 = Some true.

Definition match_correct (iou : nat → nat → Q) (lcls dcls : list Z)
    (iouv : list Q) : result BoolMatrix :=
  let correct := zeros (length dcls) (length iouv) in
  thr ← py_index iouv 0;
  let x := where_matches iou thr lcls dcls in
  if decide (length x ≠ 0)
  then Ok (scatter correct iouv (surviving x))
  else Ok correct.

(** ** Collaborators outside evaluator.py *)

Definition ImageId : Set := (Z + string)%type.

Record Results : Set := mkResults {
  r_p : list Q;
  r_r : list Q;
  r_ap : list (list Q);
  r_f1 : list (list Q);
  r_ap_class : list Z
}.

Class Collaborators : Type := {
  (** prototype tensor of one image, ground-truth masks, predicted masks *)
  Proto : Type;
  GtMasks : Type;
  PredMasks : Type;
  (** utils/boxes.py; applied row by row and pair by pair *)
  box_iou : Box → Box → Q;
  xywh2xyxy : Box → Box;
  xyxy2xywh : Box → Box;
  (** utils/segment.py and torch: [shape[1], shape[2]] of the ground-truth
      masks, boolean-mask row selection, the two mask decoders,
      [F.interpolate] to the predicted resolution, and entry [i, j] of the
      matrix returned by [mask_iou] *)
  gt_hw : GtMasks → nat * nat;
  select_masks : GtMasks → list bool → GtMasks;
  process_mask : Proto → list (list Q) → list Box → nat * nat → PredMasks;
  process_mask_upsample :
    Proto → list (list Q) → list Box → nat * nat → PredMasks;
  interpolate : GtMasks → PredMasks → GtMasks;
  mask_iou : GtMasks → PredMasks → nat → nat → Q;
  (** utils/metrics.py: (tp, conf, pred_cls, target_cls) and the variant
      that takes the mask matrix first *)
  ap_per_class : BoolMatrix → list Q → list Z → list Z → Results;
  ap_per_class_box_and_mask :
    BoolMatrix → BoolMatrix → list Q → list Z → list Z → Results * Results;
  (** (the pair is the "boxes" entry, then the "masks" entry of its dict) *)
  (** Python's [round(x, n)] and the image id of a path stem (line 60) *)
  py_round : Q → nat → Q;
  image_id_of : string → ImageId
}.

(** ** Metric (lines 645-725) and Metrics (lines 728-755) *)

Record Metric : Set := mkMetric {
  p : list Q;
  r : list Q;
  f1 : list (list Q);
  all_ap : list (list Q);
  ap_class_index : list Z
}.

(** [Metric.__init__] *)
Definition Metric_init : Metric := mkMetric [] [] [] [] [].

Definition Qsum (l : list Q) : Q := foldr Qplus 0%Q l.

(** [a.mean()] of a one-dimensional array, over the rationals: the sum
    divided by the length.  numpy's float64 result can differ from it in
    the last bit, and on an empty array it is nan; the callers below test
    for emptiness first. *)
Definition mean (l : list Q) : Q := (Qsum l / inject_Z (Z.of_nat (length l)))%Q.

(** [self.all_ap[:, 0]]: numpy refuses index 0 on an empty axis. *)
Definition column0 (a : list (list Q)) : result (list Q) :=
  mapM (λ row, py_index row 0) a.

Definition ap50 (m : Metric) : result (list Q) :=
  if decide (length (all_ap m) ≠ 0) then column0 (all_ap m) else Ok [].

Definition ap (m : Metric) : list Q :=
  if decide (length (all_ap m) ≠ 0) then mean <$> all_ap m else [].

Definition mp (m : Metric) : Q :=
  if decide (length (p m) ≠ 0) then mean (p m) else 0%Q.

Definition mr (m : Metric) : Q :=
  if decide (length (r m) ≠ 0) then mean (r m) else 0%Q.

Definition map50 (m : Metric) : result Q :=
  if decide (length (all_ap m) ≠ 0)
  then c ← column0 (all_ap m); Ok (mean c)
  else Ok 0%Q.

(** [self.all_ap.mean()]: the mean over every class and threshold. *)
Definition map_ (m : Metric) : Q :=
  if decide (length (all_ap m) ≠ 0) then mean (concat (all_ap m)) else 0%Q.

Definition mean_results (m : Metric) : result (list Q) :=
  m50 ← map50 m; Ok [mp m; mr m; m50; map_ m].

Definition class_result (m : Metric) (i : nat) : result (list Q) :=
  pi ← py_index (p m) i;
  ri ← py_index (r m) i;
  a50 ← ap50 m;
  a50i ← py_index a50 i;
  api ← py_index (ap m) i;
  Ok [pi; ri; a50i; api].

(** [a[c] = v] on a numpy array: negative indices count from the end. *)
Definition np_setitem (a : list Q) (c : Z) (v : Q) : result (list Q) :=
  let n := Z.of_nat (length a) in
  if decide (0 ≤ c < n)%Z then Ok (<[Z.to_nat c := v]> a)
  else if decide (- n ≤ c < 0)%Z then Ok (<[Z.to_nat (n + c) := v]> a)
  else Raise IndexError.

(** [a[c]] on a numpy array. *)
Definition np_getitem (a : list Q) (c : Z) : result Q :=
  let n := Z.of_nat (length a) in
  if decide (0 ≤ c < n)%Z then py_index a (Z.to_nat c)
  else if decide (- n ≤ c < 0)%Z then py_index a (Z.to_nat (n + c))
  else Raise IndexError.

Definition get_maps_step (m : Metric) (acc : result (list Q))
    (ic : nat * Z) : result (list Q) :=
  maps ← acc;
  v ← py_index (ap m) ic.1;
  np_setitem maps ic.2 v.

(** Lines 709-713. *)
Definition get_maps (m : Metric) (nc : nat) : result (list Q) :=
  foldl (get_maps_step m) (Ok (replicate nc (map_ m)))
        (imap pair (ap_class_index m)).

(** Lines 715-725. *)
Definition update (res : Results) : Metric :=
  mkMetric (r_p res) (r_r res) (r_f1 res) (r_ap res) (r_ap_class res).

(** [self.metric]: a [Metric], or the box/mask pair of a [Metrics]. *)
Inductive MetricState : Set :=
| BoxMetric (m : Metric)
| BoxMaskMetrics (metric_box metric_mask : Metric).

Definition metric_mean_results (ms : MetricState) : result (list Q) :=
  match ms with
  | BoxMetric m => mean_results m
  | BoxMaskMetrics b k =>
      rb ← mean_results b; rk ← mean_results k; Ok (rb ++ rk)
  end.

Definition metric_class_result (ms : MetricState) (i : nat)
    : result (list Q) :=
  match ms with
  | BoxMetric m => class_result m i
  | BoxMaskMetrics b k =>
      rb ← class_result b i; rk ← class_result k i; Ok (rb ++ rk)
  end.

Definition metric_ap_class_index (ms : MetricState) : list Z :=
  match ms with
  | BoxMetric m => ap_class_index m
  | BoxMaskMetrics b _ => ap_class_index b
  end.

(** [Metrics.get_maps] adds the two numpy arrays entry by entry. *)
Definition metric_get_maps (ms : MetricState) (nc : nat)
    : result (list Q) :=
  match ms with
  | BoxMetric m => get_maps m nc
  | BoxMaskMetrics b k =>
      mb ← get_maps b nc; mk ← get_maps k nc; Ok (zip_with Qplus mb mk)
  end.

(** ** Evaluator configuration and run state *)

(** One row of [targets]: [image index, cls, x, y, w, h]. *)
Record Target : Set := mkTarget { t_img : nat; t_cls : Z; t_xywh : Box }.

(** The fields of [Yolov5Evaluator] fixed by [__init__]; [save_dir_exists]
    stands for the file-system query [self.save_dir.exists()]. *)
Record Config : Set := mkConfig {
  single_cls : bool;
  plots : bool;
  mask : bool;
  verbose : bool;
  mask_downsample_ratio : nat;
  nc : nat;
  names : list string;
  class_map : list Z;
  save_dir_exists : bool
}.

(** Line 113: [torch.linspace(0.5, 0.95, 10)], as the ten decimals it
    stands for (the float32 entries are their roundings). *)
Definition self_iouv : list Q :=
  [0.5; 0.55; 0.6; 0.65; 0.7; 0.75; 0.8; 0.85; 0.9; 0.95]%Q.

(** Line 114. *)
Definition niou : nat := length self_iouv.

(** One entry of [self.stats]; the tuple built at lines 531-539 puts the
    mask matrix first and the box matrix second. *)
Record StatRecord : Set := mkStat {
  s_masks : BoolMatrix;
  s_boxes : BoolMatrix;
  s_conf : list Q;
  s_pcls : list Z;
  s_tcls : list Z
}.

Record JsonRecord : Set := mkJson {
  j_image_id : ImageId;
  j_category_id : Z;
  j_bbox : list Q;
  j_score : Q
}.

(** One printed report line: name, images seen, label count, results. *)
Record ReportRow : Set := mkRow {
  row_name : string;
  row_seen : nat;
  row_labels : Q;
  row_results : list Q
}.

Section Evaluator.
Context `{Collaborators}.

(** The run state: the tensors alive on the heap (prediction tensors are
    passed by reference and [compute_stat] writes into its argument), the
    mutable fields of the evaluator, and what has been written so far. *)
Record State : Type := mkState {
  heap : gmap nat Tensor;
  seen : nat;
  stats : list StatRecord;
  dt : list Q;
  pred_masks : list PredMasks;
  confusion : list (Tensor * list Label);
  jdict : list JsonRecord;
  txt : list (string * list Q);
  metric : MetricState;
  printed : list ReportRow
}.

Definition set_heap (h : gmap nat Tensor) (st : State) : State :=
  mkState h (seen st) (stats st) (dt st) (pred_masks st) (confusion st)
          (jdict st) (txt st) (metric st) (printed st).
Definition set_seen (n : nat) (st : State) : State :=
  mkState (heap st) n (stats st) (dt st) (pred_masks st) (confusion st)
          (jdict st) (txt st) (metric st) (printed st).
Definition set_stats (s : list StatRecord) (st : State) : State :=
  mkState (heap st) (seen st) s (dt st) (pred_masks st) (confusion st)
          (jdict st) (txt st) (metric st) (printed st).
Definition set_pred_masks (pm : list PredMasks) (st : State) : State :=
  mkState (heap st) (seen st) (stats st) (dt st) pm (confusion st)
          (jdict st) (txt st) (metric st) (printed st).
Definition set_confusion (c : list (Tensor * list Label)) (st : State)
    : State :=
  mkState (heap st) (seen st) (stats st) (dt st) (pred_masks st) c
          (jdict st) (txt st) (metric st) (printed st).
Definition set_jdict (j : list JsonRecord) (st : State) : State :=
  mkState (heap st) (seen st) (stats st) (dt st) (pred_masks st)
          (confusion st) j (txt st) (metric st) (printed st).
Definition set_txt (t : list (string * list Q)) (st : State) : State :=
  mkState (heap st) (seen st) (stats st) (dt st) (pred_masks st)
          (confusion st) (jdict st) t (metric st) (printed st).
Definition set_metric (m : MetricState) (st : State) : State :=
  mkState (heap st) (seen st) (stats st) (dt st) (pred_masks st)
          (confusion st) (jdict st) (txt st) m (printed st).
Definition set_printed (rows : list ReportRow) (st : State) : State :=
  mkState (heap st) (seen st) (stats st) (dt st) (pred_masks st)
          (confusion st) (jdict st) (txt st) (metric st) rows.

(** Reading a tensor through a reference; the references the evaluator
    holds are always live, [ReferenceError] only keeps [load] total. *)
Definition load (l : nat) (st : State) : result Tensor :=
  match heap st !! l with
  | Some t => Ok t
  | None => Raise ReferenceError
  end.

(** In-place write into the tensor behind a reference. *)
Definition store (l : nat) (t : Tensor) (st : State) : State :=
  set_heap (<[l := t]> (heap st)) st.

(** [pred.clone()]: a new tensor with the same rows. *)
Definition clone (l : nat) (st : State) : result (nat * State) :=
  t ← load l st;
  let l' := fresh (dom (heap st)) in
  Ok (l', store l' t st).

(** ** The two matchers *)

(** Entry [i, j] of [box_iou(labels[:, 1:], detections[:, :4])]. *)
Definition box_iou_at (labels : list Label) (detections : Tensor)
    (i j : nat) : Q :=
  match labels !! i, detections !! j with
  | Some l, Some d => box_iou (l_box l) (d_box d)
  | _, _ => 0%Q
  end.

(** The candidate rows of [process_batch] (line 426), for [thr = iouv[0]]. *)
Definition box_candidates (detections : Tensor) (labels : list Label)
    (thr : Q) : list Match :=
  where_matches (box_iou_at labels detections) thr
                (l_cls <$> labels) (d_cls <$> detections).

(** The [matches] array of [process_batch] once line 430 has run (more
    than one candidate). *)
Definition box_detection_deduplicated (detections : Tensor)
    (labels : list Label) (thr : Q) : list Match :=
  dedup_detections (sort_by_iou (box_candidates detections labels thr)).

(** The [matches] array of [process_batch] once line 432 has run. *)
Definition box_matches (detections : Tensor) (labels : list Label)
    (thr : Q) : list Match :=
  surviving (box_candidates detections labels thr).

(** Lines 408-435. *)
Definition process_batch (detections : Tensor) (labels : list Label)
    (iouv : list Q) : result BoolMatrix :=
  match_correct (box_iou_at labels detections)
                (l_cls <$> labels) (d_cls <$> detections) iouv.

(** Lines 437-483. *)
Definition process_batch_masks (cfg : Config) (predn : Tensor)
    (proto_out : option Proto) (gt_masksi : option GtMasks)
    (labels : list Label) : result (BoolMatrix * option PredMasks) :=
  match proto_out, gt_masksi with
  | Some _, None | None, Some _ => Raise AssertionError
  | None, None => Ok (zeros 0 niou, None)
  | Some proto, Some gt =>
      let process :=
        if plots cfg then process_mask_upsample else process_mask in
      let gt_shape := ((gt_hw gt).1 * mask_downsample_ratio cfg,
                       (gt_hw gt).2 * mask_downsample_ratio cfg) in
      let pred_maski :=
        process proto (d_coef <$> predn) (d_box <$> predn) gt_shape in
      let gt := if plots cfg then gt else interpolate gt pred_maski in
      correct ← match_correct (mask_iou gt pred_maski)
                  (l_cls <$> labels) (d_cls <$> predn) self_iouv;
      Ok (correct, Some pred_maski)
  end.

(** ** compute_stat (lines 485-539) *)

(** [predn[:, 5] = 0] *)
Definition coerce_cls (predn : Tensor) : Tensor :=
  (λ d, mkDetection (d_box d) (d_conf d) 0%Z (d_coef d)) <$> predn.

(** [train_out[1][si] if isinstance(train_out, tuple) else None]; a tuple
    is given by its second component, one prototype tensor per image. *)
Definition proto_of (train_out : option (list Proto)) (si : nat)
    : result (option Proto) :=
  match train_out with
  | Some protos => pr ← py_index protos si; Ok (Some pr)
  | None => Ok None
  end.

Definition labelsn_of (labels : list Target) : list Label :=
  (λ t, mkLabel (t_cls t) (xywh2xyxy (t_xywh t))) <$> labels.

Definition push_stat (s : StatRecord) (st : State) : State :=
  set_stats (stats st ++ [s]) st.

(** Line 487: [targets[targets[:, 0] == si, 1:]]. *)
Definition labels_of (si : nat) (targets : list Target) : list Target :=
  filter (λ t, t_img t = si) targets.

(** Line 490: [gt_masks if gt_masks is None else gt_masks[targets[:, 0] == si]]. *)
Definition masks_of (si : nat) (targets : list Target)
    (gt_masks : option GtMasks) : option GtMasks :=
  (λ g, select_masks g ((λ t, bool_decide (t_img t = si)) <$> targets))
    <$> gt_masks.

(** Lines 523-527: the confusion matrix is fed the pair it is given (its
    own bookkeeping is outside evaluator.py) and the predicted masks are
    kept for plotting. *)
Definition record_plots (cfg : Config) (pr : Tensor) (labelsn : list Label)
    (pred_maski : option PredMasks) (st : State) : State :=
  if plots cfg then
    let st := set_confusion (confusion st ++ [(pr, labelsn)]) st in
    match pred_maski with
    | Some pm => set_pred_masks (pred_masks st ++ [pm]) st
    | None => st
    end
  else st.

Definition compute_stat (cfg : Config) (si : nat) (predn : nat)
    (targets : list Target) (gt_masks : option GtMasks)
    (train_out : option (list Proto)) (st : State) : result State :=
  let labels := labels_of si targets in
  let masksi := masks_of si targets gt_masks in
  proto_out ← proto_of train_out si;
  let nl := length labels in
  let tcls := if decide (nl ≠ 0) then t_cls <$> labels else [] in
  pr ← load predn st;
  if decide (length pr = 0) then
    if decide (nl ≠ 0)
    then Ok (push_stat (mkStat (zeros 0 niou) (zeros 0 niou) [] [] tcls) st)
    else Ok st
  else
    let st := if single_cls cfg then store predn (coerce_cls pr) st else st in
    pr ← load predn st;
    '(correct_boxes, correct_masks, st) ←
      (if decide (nl ≠ 0) then
         let labelsn := labelsn_of labels in
         correct_boxes ← process_batch pr labelsn self_iouv;
         '(correct_masks, pred_maski) ←
           process_batch_masks cfg pr proto_out masksi labelsn;
         Ok (correct_boxes, correct_masks,
             record_plots cfg pr labelsn pred_maski st)
       else Ok (zeros (length pr) niou, zeros (length pr) niou, st));
    Ok (push_stat (mkStat correct_masks correct_boxes
                     (d_conf <$> pr) (d_cls <$> pr) tcls) st).

(** The tensor behind [predn], and the state, once lines 510-511 have
    run; used to state what [compute_stat] hands to the matchers. *)
Definition after_coercion (cfg : Config) (pr : Tensor) : Tensor :=
  if single_cls cfg then coerce_cls pr else pr.

Definition coerced_state (cfg : Config) (predn : nat) (pr : Tensor)
    (st : State) : State :=
  if single_cls cfg then store predn (coerce_cls pr) st else st.

(** ** Result files (lines 48-71) *)

(** [class_map[int(cls)]] on a Python list: negative indices wrap. *)
Definition py_getitem {A} (l : list A) (c : Z) : result A :=
  let n := Z.of_nat (length l) in
  if decide (0 ≤ c < n)%Z then py_index l (Z.to_nat c)
  else if decide (- n ≤ c < 0)%Z then py_index l (Z.to_nat (n + c))
  else Raise IndexError.

(** The text line of one detection.  [*xyxy, conf, cls] unpacks a row from
    its end and [torch.tensor(xyxy).view(1, 4)] needs exactly four leading
    entries, so a row that carries mask coefficients raises.  [shape] is
    (height, width); the gain [gn] is (w, h, w, h). *)
Definition txt_line (save_conf : bool) (shape : Q * Q) (d : Detection)
    : result (list Q) :=
  match d_coef d with
  | [] =>
      let b := xyxy2xywh (d_box d) in
      let xywh := [bx1 b / shape.2; by1 b / shape.1;
                   bx2 b / shape.2; by2 b / shape.1]%Q in
      Ok (if save_conf
          then inject_Z (d_cls d) :: xywh ++ [d_conf d]
          else inject_Z (d_cls d) :: xywh)
  | _ :: _ => Raise RuntimeError
  end.

(** Lines 48-55; [file] identifies the text file being appended to. *)
Definition save_one_txt (predn : Tensor) (save_conf : bool) (shape : Q * Q)
    (file : string) (st : State) : result State :=
  lines ← mapM (txt_line save_conf shape) predn;
  Ok (set_txt (txt st ++ ((λ l, (file, l)) <$> lines)) st).

(** Lines 61-62: xywh with the centre moved to the top-left corner;
    [xyxy2xywh] returns a new tensor, the in-place subtraction is on it. *)
Definition json_box (d : Detection) : list Q :=
  let b := xyxy2xywh (d_box d) in
  [bx1 b - bx2 b / 2; by1 b - by2 b / 2; bx2 b; by2 b]%Q.

Definition json_record (cmap : list Z) (image_id : ImageId) (d : Detection)
    : result JsonRecord :=
  category ← py_getitem cmap (d_cls d);
  Ok (mkJson image_id category ((λ x, py_round x 3) <$> json_box d)
             (py_round (d_conf d) 5)).

(** Lines 58-71; [stem] is [path.stem]. *)
Definition save_one_json (predn : Tensor) (stem : string) (cmap : list Z)
    (st : State) : result State :=
  recs ← mapM (json_record cmap (image_id_of stem)) predn;
  Ok (set_jdict (jdict st ++ recs) st).

(** ** The per-image body of the loop of [run] (lines 250-276) *)

Definition run_image (cfg : Config) (save_txt save_conf save_json : bool)
    (targets : list Target) (gt_masks : option GtMasks)
    (train_out : option (list Proto))
    (si : nat) (pred : nat) (stem : string) (shape : Q * Q)
    (st : State) : result State :=
  let st := set_seen (seen st + 1) st in
  '(predn, st) ← clone pred st;
  st ← compute_stat cfg si predn targets gt_masks train_out st;
  st ← (if save_txt && save_dir_exists cfg
        then orig ← load pred st; save_one_txt orig save_conf shape stem st
        else Ok st);
  if save_json && save_dir_exists cfg
  then orig ← load pred st; save_one_json orig stem (class_map cfg) st
  else Ok st.

Definition run_images_step (cfg : Config)
    (save_txt save_conf save_json : bool) (targets : list Target)
    (gt_masks : option GtMasks) (train_out : option (list Proto))
    (paths : list string) (shapes : list (Q * Q))
    (acc : result State) (ip : nat * nat) : result State :=
  st ← acc;
  stem ← py_index paths ip.1;
  shape ← py_index shapes ip.1;
  run_image cfg save_txt save_conf save_json targets gt_masks train_out
            ip.1 ip.2 stem shape st.

(** The loop itself, [for si, pred in enumerate(out)]: [out] lists the
    references of the prediction tensors of the batch, [paths] the path
    stems and [shapes] the original (height, width) of its images. *)
Definition run_images (cfg : Config) (save_txt save_conf save_json : bool)
    (targets : list Target) (gt_masks : option GtMasks)
    (train_out : option (list Proto))
    (paths : list string) (shapes : list (Q * Q))
    (out : list nat) (st : State) : result State :=
  foldl (run_images_step cfg save_txt save_conf save_json targets gt_masks
           train_out paths shapes)
        (Ok st) (imap pair out).

(** ** after_infer (lines 377-406) and print_metric (lines 599-608) *)

(** Line 387, [np.concatenate] over the transposed [self.stats]: no column at all
    for an empty [self.stats], otherwise the five concatenated columns. *)
Definition concat_stats (s : list StatRecord) : option StatRecord :=
  match s with
  | [] => None
  | _ :: _ =>
      Some (mkStat (concat (s_masks <$> s)) (concat (s_boxes <$> s))
                   (concat (s_conf <$> s)) (concat (s_pcls <$> s))
                   (concat (s_tcls <$> s)))
  end.

(** [a.any()] on a boolean matrix. *)
Definition any (a : BoolMatrix) : bool := existsb (existsb id) a.

(** Every entry of a correctness matrix is false. *)
Definition all_false (a : BoolMatrix) : Prop :=
  Forall (Forall (λ b, b = false)) a.

(** [np.bincount(x.astype(np.int64), minlength=n)] *)
Definition np_bincount (x : list Z) (minlength : nat) : result (list Q) :=
  if decide (Forall (λ c, 0 ≤ c)%Z x) then
    let n := foldr (λ c n, max (S (Z.to_nat c)) n) minlength x in
    Ok ((λ c, inject_Z (Z.of_nat
               (length (filter (λ y, y = Z.of_nat c) x)))) <$> seq 0 n)
  else Raise ValueError.

(** [self.names[c]]: [names] is a dict keyed by 0 .. len-1. *)
Definition names_getitem (cfg : Config) (c : Z) : result string :=
  if decide (0 ≤ c)%Z then
    match names cfg !! Z.to_nat c with
    | Some s => Ok s
    | None => Raise KeyError
    end
  else Raise KeyError.

Definition print_class_row (cfg : Config) (nt : list Q) (n_seen : nat)
    (ms : MetricState) (ic : nat * Z) : result ReportRow :=
  name ← names_getitem cfg ic.2;
  ntc ← np_getitem nt ic.2;
  res ← metric_class_result ms ic.1;
  Ok (mkRow name n_seen ntc res).

(** Lines 599-608.  Of its argument [stats] the method reads only
    [len(stats)], here [n_stats].  Returns the rows printed. *)
Definition print_metric (cfg : Config) (nt : list Q) (n_stats : nat)
    (n_seen : nat) (ms : MetricState) : result (list ReportRow) :=
  res ← metric_mean_results ms;
  let all := mkRow "all" n_seen (Qsum nt) res in
  if verbose cfg && bool_decide (1 < nc cfg) && bool_decide (n_stats ≠ 0) then
    rows ← mapM (print_class_row cfg nt n_seen ms)
                (imap pair (metric_ap_class_index ms));
    Ok (all :: rows)
  else Ok [all].

(** [x / self.seen] on a Python float and int. *)
Definition py_div (x : Q) (n : nat) : result Q :=
  if decide (n = 0) then Raise ZeroDivisionError
  else Ok (x / inject_Z (Z.of_nat n))%Q.

(** Line 405: [tuple(x / self.seen * 1e3 for x in self.dt)]. *)
Definition speeds (dts : list Q) (n_seen : nat) : result (list Q) :=
  mapM (λ x, q ← py_div x n_seen; Ok (q * 1000)%Q) dts.

(** Lines 387-399: the metric after the aggregation step and the target
    counts [nt].  [cols] are the concatenated columns. *)
Definition aggregate (cfg : Config) (cols : StatRecord) (ms : MetricState)
    : result (MetricState * list Q) :=
  let box_or_mask_any := any (s_masks cols) || any (s_boxes cols) in
  if box_or_mask_any then
    let ms' :=
      if mask cfg then
        let res := ap_per_class_box_and_mask (s_masks cols) (s_boxes cols)
                     (s_conf cols) (s_pcls cols) (s_tcls cols) in
        BoxMaskMetrics (update res.1) (update res.2)
      else
        BoxMetric (update (ap_per_class (s_boxes cols) (s_conf cols)
                             (s_pcls cols) (s_tcls cols))) in
    nt ← np_bincount (s_tcls cols) (nc cfg);
    Ok (ms', nt)
  else Ok (ms, [0%Q]).

(** Line 389, [stats[1:] if not self.mask else stats]: the number of
    columns handed on, out of the five concatenated ones. *)
Definition stats_columns (cfg : Config) : nat :=
  if mask cfg then 5 else 4.

(** Lines 377-406.  [stats[0]] is evaluated at line 388, before the
    [len(stats)] test of line 390.  The confusion-matrix plot of lines
    383-384 is visualisation and is left out. *)
Definition after_infer (cfg : Config) (st : State)
    : result (list Q * State) :=
  cols ← match concat_stats (stats st) with
         | Some c => Ok c
         | None => Raise IndexError
         end;
  '(ms, nt) ← aggregate cfg cols (metric st);
  let st := set_stats [] (set_metric ms st) in
  rows ← print_metric cfg nt (stats_columns cfg) (seen st) ms;
  let st := set_printed (printed st ++ rows) st in
  t ← speeds (dt st) (seen st);
  Ok (t, st).

(** The evaluator right after [__init__] (lines 151-161), on a heap. *)
Definition initial_state (cfg : Config) (h : gmap nat Tensor) : State :=
  mkState h 0 [] [0; 0; 0]%Q [] [] [] []
          (if mask cfg then BoxMaskMetrics Metric_init Metric_init
           else BoxMetric Metric_init) [].

End Evaluator.

(** ** A box-only set of collaborators, used to run the evaluator on
    concrete inputs *)

(** Modelled from the spec: [box_iou] is defined in utils/boxes.py, which
    is not among the sources; the glossary gives IoU as the area of the
    intersection divided by the area of the union. *)
Definition box_area (b : Box) : Q :=
  ((bx2 b - bx1 b) * (by2 b - by1 b))%Q.

Definition box_inter (a b : Box) : Q :=
  (Qmax 0 (Qmin (bx2 a) (bx2 b) - Qmax (bx1 a) (bx1 b)) *
   Qmax 0 (Qmin (by2 a) (by2 b) - Qmax (by1 a) (by1 b)))%Q.

Definition box_iou_spec (a b : Box) : Q :=
  (box_inter a b / (box_area a + box_area b - box_inter a b))%Q.

(** Modelled from the spec: [xywh2xyxy] and [xyxy2xywh] are defined in
    utils/boxes.py; label rows carry (x_center, y_center, w, h) and boxes
    are (x1, y1, x2, y2) corners. *)
Definition xywh2xyxy_spec (b : Box) : Box :=
  mkBox (bx1 b - bx2 b / 2) (by1 b - by2 b / 2)
        (bx1 b + bx2 b / 2) (by1 b + by2 b / 2)%Q.

Definition xyxy2xywh_spec (b : Box) : Box :=
  mkBox ((bx1 b + bx2 b) / 2) ((by1 b + by2 b) / 2)
        (bx2 b - bx1 b) (by2 b - by1 b)%Q.

(** Mask evaluation disabled: no prototype or mask tensor exists, the
    aggregation and rounding collaborators are inert. *)
Definition box_only : Collaborators := {|
  Proto := Empty_set;
  GtMasks := Empty_set;
  PredMasks := Empty_set;
  box_iou := box_iou_spec;
  xywh2xyxy := xywh2xyxy_spec;
  xyxy2xywh := xyxy2xywh_spec;
  gt_hw := λ g, (0, 0);
  select_masks := λ g _, g;
  process_mask := λ pr _ _ _, pr;
  process_mask_upsample := λ pr _ _ _, pr;
  interpolate := λ g _, g;
  mask_iou := λ _ _ _ _, 0%Q;
  ap_per_class := λ _ _ _ _, mkResults [] [] [] [] [];
  ap_per_class_box_and_mask :=
    λ _ _ _ _ _, (mkResults [] [] [] [] [], mkResults [] [] [] [] []);
  py_round := λ x _, x;
  image_id_of := inr
|}.

(** ** Concrete inputs *)

(** One ground-truth box of class 0 and two detections of class 0:
    detection 0 is the confident one and overlaps the box with IoU 0.58,
    detection 1 has the lower confidence and IoU 0.93. *)
Definition ex_label : Label := mkLabel 0 (mkBox 0 0 100 100).
Definition ex_det_loose : Detection :=
  mkDetection (mkBox 0 0 100 58) 0.9 0 [].
Definition ex_det_tight : Detection :=
  mkDetection (mkBox 0 0 100 93) 0.3 0 [].
Definition ex_detections : Tensor := [ex_det_loose; ex_det_tight].

Definition row_false : list bool := replicate 10 false.

(** A box-only evaluator in single-class mode that saves its results, one
    image with the two detections of [ex_detections] stored at reference 0
    and predicted as class 1, and the label of [ex_label] in (x, y, w, h)
    form. *)
Definition ex_config : Config :=
  mkConfig true false false false 1 1 ["object"] (seqZ 0 1000) true.

Definition ex_pred : Tensor :=
  [mkDetection (mkBox 0 0 100 58) 0.9 1 [];
   mkDetection (mkBox 0 0 100 93) 0.3 1 []].

Definition ex_targets : list Target := [mkTarget 0 0 (mkBox 50 50 100 100)].

Definition ex_state : State (H := box_only) :=
  initial_state (H := box_only) ex_config {[ 0 := ex_pred ]}.

(** A metric updated for the classes 0 and 2 over two thresholds. *)
Definition ex_metric : Metric :=
  mkMetric [1; 0.5]%Q [1; 0.5]%Q [] [[0.8; 0.4]; [0.6; 0.2]]%Q [0; 2]%Z.

(** A run of one image whose single detection matched nothing. *)
Definition ex_state_no_tp : State (H := box_only) :=
  set_seen (H := box_only) 1
    (set_stats (H := box_only) [mkStat [] [row_false] [0.9%Q] [1%Z] [0%Z]]
       (initial_state (H := box_only) ex_config ∅)).

(** ** Definitions used by the further properties *)

(** The detections a correctness matrix marks in threshold column [t]. *)
Definition true_positives (correct : BoolMatrix) (t : nat) : list nat :=
  filter (λ d, correct !! d ≫= (λ row, row !! t) = Some true)
         (seq 0 (length correct)).

(** Line 150, the class map of a dataset other than COCO:
    [list(range(1000))]. *)
Definition default_class_map : list Z := seqZ 0 1000.

(** A stand-in mask head for concrete runs: prototypes and masks carry no
    data and every predicted mask overlaps every ground-truth mask by
    0.75; the rest is as in [box_only]. *)
Definition mask_stub : Collaborators := {|
  Proto := unit;
  GtMasks := unit;
  PredMasks := unit;
  box_iou := box_iou_spec;
  xywh2xyxy := xywh2xyxy_spec;
  xyxy2xywh := xyxy2xywh_spec;
  gt_hw := λ _, (0, 0);
  select_masks := λ g _, g;
  process_mask := λ _ _ _ _, tt;
  process_mask_upsample := λ _ _ _ _, tt;
  interpolate := λ g _, g;
  mask_iou := λ _ _ _ _, 0.75%Q;
  ap_per_class := λ _ _ _ _, mkResults [] [] [] [] [];
  ap_per_class_box_and_mask :=
    λ _ _ _ _ _, (mkResults [] [] [] [] [], mkResults [] [] [] [] []);
  py_round := λ x _, x;
  image_id_of := inr
|}.

(** [ex_config] with single-class mode off and two classes. *)
Definition ex_config_multi : Config :=
  mkConfig false false false false 1 2 ["object"; "other"]
           default_class_map true.

(** [ex_detections] with other confidences. *)
Definition ex_detections_faint : Tensor :=
  [mkDetection (mkBox 0 0 100 58) 0.2 0 [];
   mkDetection (mkBox 0 0 100 93) 0.1 0 []].

(** The matrix [process_batch] returns for [ex_detections] and
    [ex_label]: detection 0 is a hit at the first two thresholds. *)
Definition ex_correct : BoolMatrix :=
  [[true; true; false; false; false; false; false; false; false; false];
   row_false].

(** The matrix of [mask_stub] for the same detections and label. *)
Definition ex_correct_masks : BoolMatrix :=
  [[true; true; true; true; true; true; false; false; false; false];
   row_false].

(** [ex_state] on the stand-in mask head. *)
Definition ex_state_masks : State (H := mask_stub) :=
  initial_state (H := mask_stub) ex_config {[ 0 := ex_pred ]}.

(** An evaluator whose only tensor, at reference 0, has no row. *)
Definition ex_state_background : State (H := box_only) :=
  initial_state (H := box_only) ex_config {[ 0 := [] ]}.

(** [ex_state_no_tp] on an evaluator that already holds [ex_metric]. *)
Definition ex_state_stale : State (H := box_only) :=
  set_metric (H := box_only) (BoxMetric ex_metric) ex_state_no_tp.

(** A verbose box-only evaluator over three classes. *)
Definition ex_config_verbose : Config :=
  mkConfig false false false true 1 3 ["person"; "bicycle"; "car"]
           default_class_map true.

(** [ex_state_background] once the loop of [run] has gone over its one
    image, which has neither detections nor labels: one image seen,
    nothing recorded, and the clone of the prediction at reference 1. *)
Definition ex_state_unrecorded : State (H := box_only) :=
  set_seen (H := box_only) 1
    (initial_state (H := box_only) ex_config {[ 0 := []; 1 := [] ]}).

(** Whether a computation returned rather than raised. *)
Definition returns {A} (r : result A) : bool :=
  match r with
  | Ok _ => true
  | Raise _ => false
  end.

(** * Properties *)

(** ** The error monad *)

Lemma bind_Ok {A B} (f : A → result B) (m : result A) (b : B) :
  m ≫= f = Ok b ↔ ∃ a, m = Ok a ∧ f a = Ok b.
Proof.
  destruct m as [a|e]; cbn; split.
  - eauto.
  - by intros (a' & [= ->] & Hf).
  - done.
  - by intros (a' & ? & _).
Qed.

Lemma bind_Ok_l {A B} (f : A → result B) (a : A) : Ok a ≫= f = f a.
Proof. done. Qed.

Lemma py_index_Ok {A} (l : list A) (i : nat) (a : A) :
  py_index l i = Ok a ↔ l !! i = Some a.
Proof. unfold py_index. destruct (l !! i); split; congruence. Qed.

(** ** numpy primitives *)

Lemma first_index_Some (k : nat) (keys : list nat) (i : nat) :
  first_index k keys = Some i ↔
  keys !! i = Some k ∧ ∀ j, j < i → keys !! j ≠ Some k.
Proof.
  unfold first_index. split.
  - destruct (list_find _ keys) as [[i' x]|] eqn:E; [|done].
    intros [= <-]. apply list_find_Some in E as (Hl & -> & Hmin).
    split; [done|]. intros j Hj Hk. by eapply Hmin.
  - intros [Hl Hmin].
    assert (list_find (λ x, x = k) keys = Some (i, k)) as ->; [|done].
    apply list_find_Some. split_and!; [done..|].
    intros j y Hy Hj ->. by eapply Hmin.
Qed.

Lemma first_index_is_Some (k : nat) (keys : list nat) :
  k ∈ keys → is_Some (first_index k keys).
Proof.
  intros Hk. unfold first_index.
  destruct (list_find_elem_of (λ x, x = k) keys k Hk eq_refl) as [[i x] ->].
  by eexists.
Qed.

Lemma elem_of_rows_at {A} (m : list A) (idx : list nat) (x : A) :
  x ∈ rows_at m idx ↔ ∃ i, i ∈ idx ∧ m !! i = Some x.
Proof. apply list_elem_of_omap. Qed.

Lemma rows_at_subseteq {A} (m : list A) (idx : list nat) (x : A) :
  x ∈ rows_at m idx → x ∈ m.
Proof.
  intros (i & _ & Hi)%elem_of_rows_at. by eapply list_elem_of_lookup_2.
Qed.

Lemma rows_at_seq {A} (pre m : list A) :
  rows_at (pre ++ m) (seq (length pre) (length m)) = m.
Proof.
  revert pre. induction m as [|x m IH]; intros pre; [done|].
  cbn. rewrite list_lookup_middle by done. cbn. f_equal.
  specialize (IH (pre ++ [x])).
  rewrite length_app, <- (assoc_L (++)) in IH. cbn in IH.
  by rewrite Nat.add_1_r in IH.
Qed.

Lemma rows_at_Permutation {A} (m : list A) (idx : list nat) :
  idx ≡ₚ seq 0 (length m) → rows_at m idx ≡ₚ m.
Proof.
  intros Hp. unfold rows_at. rewrite Hp.
  pose proof (rows_at_seq [] m) as Hs. cbn in Hs. unfold rows_at in Hs.
  by rewrite Hs.
Qed.

Lemma rows_at_first_index {A} (f : A → nat) (m : list A) (ks : list nat) :
  (∀ k, k ∈ ks → k ∈ f <$> m) →
  f <$> rows_at m (omap (λ k, first_index k (f <$> m)) ks) = ks.
Proof.
  induction ks as [|k ks IH]; intros Hin; [done|].
  destruct (first_index_is_Some k (f <$> m)) as [i Hi]; [apply Hin; left|].
  unfold rows_at in *. cbn. rewrite Hi. cbn.
  apply first_index_Some in Hi as [Hl _].
  apply list_lookup_fmap_Some in Hl as (x & Hx & ->).
  rewrite Hx. cbn. f_equal. apply IH. intros k' Hk'. apply Hin. by right.
Qed.

Lemma sorted_keys_elem_of (keys : list nat) (k : nat) :
  k ∈ merge_sort (≤) (remove_dups keys) ↔ k ∈ keys.
Proof. by rewrite merge_sort_Permutation, elem_of_remove_dups. Qed.

(** The rows selected by [np.unique] carry the distinct keys, ascending. *)
Lemma unique_rows_keys {A} (f : A → nat) (m : list A) :
  f <$> rows_at m (np_unique_index (f <$> m)) =
  merge_sort (≤) (remove_dups (f <$> m)).
Proof.
  apply rows_at_first_index. intros k. by rewrite sorted_keys_elem_of.
Qed.

Lemma unique_rows_NoDup {A} (f : A → nat) (m : list A) :
  NoDup (f <$> rows_at m (np_unique_index (f <$> m))).
Proof.
  rewrite unique_rows_keys, merge_sort_Permutation. apply NoDup_remove_dups.
Qed.

Lemma unique_rows_sorted {A} (f : A → nat) (m : list A) :
  StronglySorted (≤) (f <$> rows_at m (np_unique_index (f <$> m))).
Proof. rewrite unique_rows_keys. apply StronglySorted_merge_sort; apply _. Qed.

(** A row survives [np.unique] exactly when it is the first row with its
    key. *)
Lemma elem_of_unique_rows {A} (f : A → nat) (m : list A) (x : A) :
  x ∈ rows_at m (np_unique_index (f <$> m)) ↔
  ∃ i, m !! i = Some x ∧ ∀ j y, j < i → m !! j = Some y → f y ≠ f x.
Proof.
  rewrite elem_of_rows_at. unfold np_unique_index. split.
  - intros (i & (k & _ & Hk)%list_elem_of_omap & Hx).
    apply first_index_Some in Hk as [Hl Hmin]. exists i. split; [done|].
    rewrite list_lookup_fmap, Hx in Hl. injection Hl as <-.
    intros j y Hj Hy Hf. apply (Hmin j Hj).
    by rewrite list_lookup_fmap, Hy, <- Hf.
  - intros (i & Hx & Hmin). exists i. split; [|done].
    apply list_elem_of_omap. exists (f x). split.
    + apply sorted_keys_elem_of, list_elem_of_fmap. exists x.
      split; [done|]. by eapply list_elem_of_lookup_2.
    + apply first_index_Some. split.
      * by rewrite list_lookup_fmap, Hx.
      * intros j Hj (y & Hy & Hf)%list_lookup_fmap_Some. by eapply Hmin.
Qed.

(** Every key of the input is still present after [np.unique]. *)
Lemma unique_rows_covers {A} (f : A → nat) (m : list A) (y : A) :
  y ∈ m → ∃ x, x ∈ rows_at m (np_unique_index (f <$> m)) ∧ f x = f y.
Proof.
  intros Hy.
  assert (f y ∈ f <$> rows_at m (np_unique_index (f <$> m))) as Hk.
  { rewrite unique_rows_keys. apply sorted_keys_elem_of.
    by apply list_elem_of_fmap_2. }
  apply list_elem_of_fmap in Hk as (x & Hf & Hx). eauto.
Qed.

Lemma StronglySorted_lookup {A} (R : relation A) (l : list A) i j x y :
  StronglySorted R l → l !! i = Some x → l !! j = Some y → i < j → R x y.
Proof.
  intros Hs. revert i j. induction Hs as [|a l Hs IH Ha]; intros i j; [done|].
  destruct i as [|i], j as [|j]; cbn; try lia.
  - intros [= ->] Hy _. rewrite Forall_forall in Ha. apply Ha.
    by eapply list_elem_of_lookup_2.
  - intros Hx Hy Hij. apply (IH i j); [done..|lia].
Qed.

Lemma NoDup_fmap_inj_on {A B} (f : A → B) (l : list A) (x y : A) :
  NoDup (f <$> l) → x ∈ l → y ∈ l → f x = f y → x = y.
Proof.
  intros Hnd [i Hi]%list_elem_of_lookup [j Hj]%list_elem_of_lookup Hf.
  assert (i = j) as ->; [|congruence].
  apply (NoDup_lookup (f <$> l) i j (f x)); [done|..].
  - by rewrite list_lookup_fmap, Hi.
  - by rewrite list_lookup_fmap, Hj, Hf.
Qed.

(** Rows picked from [l] with pairwise distinct [g]-keys inherit the
    distinctness of the [f]-keys of [l]. *)
Lemma NoDup_fmap_selected {A B C} (f : A → B) (g : A → C) (l sel : list A) :
  NoDup (f <$> l) → NoDup (g <$> sel) → (∀ x, x ∈ sel → x ∈ l) →
  NoDup (f <$> sel).
Proof.
  intros Hf Hg Hsub. apply NoDup_fmap_2_strong; [|by eapply NoDup_fmap_1].
  intros x y Hx Hy. apply (NoDup_fmap_inj_on f l); auto.
Qed.

(** *** argsort *)

Global Instance key_le_trans a : Transitive (key_le a).
Proof. intros i j k. unfold key_le. apply Qle_trans. Qed.

Lemma insert_index_Permutation a i l : insert_index a i l ≡ₚ i :: l.
Proof.
  induction l as [|j l IH]; cbn; [done|].
  destruct (Qle_bool _ _); [done|]. by rewrite IH, Permutation_swap.
Qed.

Lemma np_argsort_Permutation a : np_argsort a ≡ₚ seq 0 (length a).
Proof.
  unfold np_argsort. induction (seq 0 (length a)) as [|i l IH]; cbn; [done|].
  by rewrite insert_index_Permutation, IH.
Qed.

Lemma insert_index_HdRel a i j l :
  key_le a j i → HdRel (key_le a) j l → HdRel (key_le a) j (insert_index a i l).
Proof.
  intros Hji Hl. destruct l as [|k l]; cbn; [by constructor|].
  destruct (Qle_bool _ _); constructor; [done|]. by inversion Hl.
Qed.

Lemma insert_index_Sorted a i l :
  Sorted (key_le a) l → Sorted (key_le a) (insert_index a i l).
Proof.
  induction 1 as [|j l Hs IH Hhd]; cbn; [by repeat constructor|].
  destruct (Qle_bool _ _) eqn:E.
  - apply Qle_bool_iff in E. by repeat constructor.
  - constructor; [done|]. apply insert_index_HdRel; [|done].
    unfold key_le. apply Qlt_le_weak, Qnot_le_lt. intros Hle.
    apply Qle_bool_iff in Hle. congruence.
Qed.

Lemma np_argsort_Sorted a : Sorted (key_le a) (np_argsort a).
Proof.
  unfold np_argsort. induction (seq 0 (length a)) as [|i l IH]; cbn.
  - constructor.
  - by apply insert_index_Sorted.
Qed.

(** *** Line 429: the candidates, reordered by decreasing IoU *)

Lemma sort_by_iou_Permutation (m : list Match) : sort_by_iou m ≡ₚ m.
Proof.
  apply rows_at_Permutation.
  by rewrite reverse_Permutation, np_argsort_Permutation, length_fmap.
Qed.

Lemma rows_at_StronglySorted {A} (R : relation A) (R' : relation nat)
    (m : list A) (idx : list nat) :
  (∀ i j x y, R' i j → m !! i = Some x → m !! j = Some y → R x y) →
  StronglySorted R' idx → StronglySorted R (rows_at m idx).
Proof.
  intros HR. induction 1 as [|i idx Hs IH Hi]; [constructor|].
  unfold rows_at in *. cbn. destruct (m !! i) as [x|] eqn:Hx; [|done].
  constructor; [done|]. apply Forall_forall.
  intros y (j & Hj & Hy)%list_elem_of_omap.
  rewrite Forall_forall in Hi. eauto.
Qed.

Lemma sort_by_iou_sorted (m : list Match) :
  StronglySorted (λ x y, Qle (m_iou y) (m_iou x)) (sort_by_iou m).
Proof.
  apply (rows_at_StronglySorted _ (flip (key_le (m_iou <$> m)))).
  - intros i j x y Hij Hx Hy. unfold flip, key_le in Hij.
    rewrite (nth_lookup_Some _ j 0%Q (m_iou y)) in Hij
      by (by rewrite list_lookup_fmap, Hy).
    by rewrite (nth_lookup_Some _ i 0%Q (m_iou x)) in Hij
      by (by rewrite list_lookup_fmap, Hx).
  - apply Sorted_StronglySorted; [apply _|].
    apply Sorted_reverse, np_argsort_Sorted.
Qed.

(** *** torch.where *)

Lemma elem_of_where_matches iou thr lcls dcls (x : Match) :
  x ∈ where_matches iou thr lcls dcls ↔
  ∃ c, lcls !! m_label x = Some c ∧ dcls !! m_det x = Some c ∧
       Qle thr (iou (m_label x) (m_det x)) ∧
       m_iou x = iou (m_label x) (m_det x).
Proof.
  unfold where_matches. rewrite list_elem_of_join. split.
  - intros (row & Hx & (i & lc & -> & Hi)%elem_of_lookup_imap).
    apply list_elem_of_join in Hx
      as (cell & Hx & (j & dc & -> & Hj)%elem_of_lookup_imap).
    destruct (Qle_bool thr (iou i j) && (lc =? dc)%Z) eqn:E;
      [|by apply not_elem_of_nil in Hx].
    apply list_elem_of_singleton in Hx as ->. cbn.
    apply andb_true_iff in E as [Hq Hc].
    apply Qle_bool_iff in Hq. apply Z.eqb_eq in Hc as ->. eauto.
  - intros (c & Hl & Hd & Hq & Hv). eexists. split.
    2:{ apply (elem_of_lookup_imap_2 _ _ _ _ Hl). }
    cbn. apply list_elem_of_join. eexists. split.
    2:{ apply (elem_of_lookup_imap_2 _ _ _ _ Hd). }
    cbn. apply Qle_bool_iff in Hq. rewrite Hq, Z.eqb_refl. cbn.
    apply list_elem_of_singleton. destruct x; cbn in *. by subst.
Qed.

(** ** The matcher *)

Lemma surviving_subseteq (x : list Match) (m : Match) :
  m ∈ surviving x → m ∈ x.
Proof.
  unfold surviving. case_decide; [|done].
  intros Hm%rows_at_subseteq%rows_at_subseteq.
  by rewrite sort_by_iou_Permutation in Hm.
Qed.

Lemma short_list_NoDup {A} (l : list A) : ¬ 1 < length l → NoDup l.
Proof.
  destruct l as [|a [|b l]]; cbn; intros Hl.
  - constructor.
  - apply NoDup_singleton.
  - lia.
Qed.

Lemma surviving_NoDup_label (x : list Match) : NoDup (m_label <$> surviving x).
Proof.
  unfold surviving. case_decide as Hl.
  - apply unique_rows_NoDup.
  - apply short_list_NoDup. by rewrite length_fmap.
Qed.

Lemma surviving_NoDup_det (x : list Match) : NoDup (m_det <$> surviving x).
Proof.
  pose proof (surviving_NoDup_label x) as Hlab. revert Hlab.
  unfold surviving. case_decide as Hl; intros Hlab.
  - eapply (NoDup_fmap_selected m_det m_label); [|done|].
    + apply (unique_rows_NoDup m_det).
    + intros m. apply rows_at_subseteq.
  - apply short_list_NoDup. by rewrite length_fmap.
Qed.

Lemma match_correct_Ok iou lcls dcls iouv thr :
  iouv !! 0 = Some thr →
  match_correct iou lcls dcls iouv =
  Ok (scatter (zeros (length dcls) (length iouv)) iouv
        (surviving (where_matches iou thr lcls dcls))).
Proof.
  intros Hthr. unfold match_correct, py_index. rewrite Hthr. cbn.
  case_decide as Hx; [done|].
  destruct (where_matches iou thr lcls dcls); [done|]. cbn in Hx. lia.
Qed.

Lemma match_correct_returns iou lcls dcls iouv res :
  match_correct iou lcls dcls iouv = Ok res →
  ∃ thr, iouv !! 0 = Some thr ∧
    res = scatter (zeros (length dcls) (length iouv)) iouv
            (surviving (where_matches iou thr lcls dcls)).
Proof.
  intros Hres. destruct (iouv !! 0) as [thr|] eqn:Hthr.
  - rewrite (match_correct_Ok _ _ _ _ thr Hthr) in Hres. naive_solver.
  - unfold match_correct, py_index in Hres. by rewrite Hthr in Hres.
Qed.

Lemma replicate_false_monotone n : row_monotone (replicate n false).
Proof. intros t1 t2 _ [? _]%lookup_replicate. done. Qed.

Lemma thresholds_met_monotone iouv v :
  Sorted Qle iouv → row_monotone (thresholds_met iouv v).
Proof.
  intros Hs%Sorted_StronglySorted; [|intros ???; apply Qle_trans].
  intros t1 t2 Ht. unfold thresholds_met. rewrite !list_lookup_fmap.
  destruct (iouv !! t2) as [b|] eqn:Hb; [|done]. cbn. intros [= Hbv].
  destruct (lookup_lt_is_Some_2 iouv t1) as [a Ha].
  { apply lookup_lt_Some in Hb. lia. }
  rewrite Ha. cbn. f_equal. apply Qle_bool_iff.
  apply Qle_bool_iff in Hbv.
  destruct (decide (t1 = t2)) as [->|Hne]; [congruence|].
  eapply Qle_trans; [|done].
  eapply (StronglySorted_lookup Qle iouv t1 t2); [done..|lia].
Qed.

Lemma scatter_monotone correct iouv matches :
  Sorted Qle iouv → Forall row_monotone correct →
  Forall row_monotone (scatter correct iouv matches).
Proof.
  intros Hs. unfold scatter. revert correct.
  induction matches as [|m matches IH]; intros correct Hc; [done|].
  cbn. apply IH, Forall_insert; [done|]. by apply thresholds_met_monotone.
Qed.

Lemma scatter_length correct iouv matches :
  length (scatter correct iouv matches) = length correct.
Proof.
  unfold scatter. revert correct.
  induction matches as [|m matches IH]; intros correct; [done|].
  change (length (foldl (λ c m, <[m_det m := thresholds_met iouv (m_iou m)]> c)
            (<[m_det m := thresholds_met iouv (m_iou m)]> correct) matches)
          = length correct).
  rewrite IH. apply length_insert.
Qed.

Lemma scatter_cons correct iouv m matches :
  scatter correct iouv (m :: matches) =
  scatter (<[m_det m := thresholds_met iouv (m_iou m)]> correct) iouv matches.
Proof. done. Qed.

(** A row that no surviving match names is left as it was. *)
Lemma scatter_lookup_other correct iouv matches d :
  d ∉ m_det <$> matches → scatter correct iouv matches !! d = correct !! d.
Proof.
  revert correct. induction matches as [|m matches IH]; intros correct Hd;
    [done|].
  rewrite fmap_cons, not_elem_of_cons in Hd. destruct Hd as [Hne Hd].
  rewrite scatter_cons, IH by done. by apply list_lookup_insert_ne.
Qed.

(** The row of a surviving match holds its IoU compared with every
    threshold. *)
Lemma scatter_lookup_match correct iouv matches m :
  NoDup (m_det <$> matches) → m ∈ matches → m_det m < length correct →
  scatter correct iouv matches !! m_det m
  = Some (thresholds_met iouv (m_iou m)).
Proof.
  revert correct. induction matches as [|m0 matches IH];
    intros correct Hnd Hm Hlt; [by apply not_elem_of_nil in Hm|].
  rewrite fmap_cons in Hnd. apply NoDup_cons in Hnd as [Hfresh Hnd].
  rewrite scatter_cons. apply elem_of_cons in Hm as [->|Hm].
  - rewrite scatter_lookup_other by done. by apply list_lookup_insert_eq.
  - apply IH; [done..|]. by rewrite length_insert.
Qed.

Lemma match_correct_monotone iou lcls dcls iouv res :
  Sorted Qle iouv → match_correct iou lcls dcls iouv = Ok res →
  Forall row_monotone res.
Proof.
  intros Hs (thr & _ & ->)%match_correct_returns.
  apply scatter_monotone; [done|].
  apply Forall_replicate, replicate_false_monotone.
Qed.

Section Matcher.
Context `{Collaborators}.

(** [process_batch] returns whenever the threshold vector is not empty,
    with one row per detection. *)
Lemma process_batch_returns (detections : Tensor) (labels : list Label)
    (iouv : list Q) :
  iouv ≠ [] →
  ∃ correct, process_batch detections labels iouv = Ok correct ∧
             length correct = length detections.
Proof.
  intros Hne. destruct iouv as [|thr iouv]; [done|].
  eexists. split; [by apply (match_correct_Ok _ _ _ _ thr)|].
  unfold zeros. by rewrite scatter_length, length_replicate, length_fmap.
Qed.

Lemma box_matches_in_range (detections : Tensor) (labels : list Label)
    (thr : Q) (m : Match) :
  m ∈ box_matches detections labels thr → m_det m < length detections.
Proof.
  intros (c & _ & Hd & _)%surviving_subseteq%elem_of_where_matches.
  apply lookup_lt_Some in Hd. by rewrite length_fmap in Hd.
Qed.

(** The matrix returned by [process_batch], row by row. *)
Lemma process_batch_rows (detections : Tensor) (labels : list Label)
    (iouv : list Q) (thr : Q) :
  iouv !! 0 = Some thr →
  ∃ correct, process_batch detections labels iouv = Ok correct ∧
    (∀ m, m ∈ box_matches detections labels thr →
          correct !! m_det m = Some (thresholds_met iouv (m_iou m))) ∧
    (∀ d, d < length detections →
          d ∉ m_det <$> box_matches detections labels thr →
          correct !! d = Some (replicate (length iouv) false)).
Proof.
  intros Hthr. eexists. split_and!.
  - by apply (match_correct_Ok _ _ _ _ thr).
  - intros m Hm. apply scatter_lookup_match; [|done|].
    + apply surviving_NoDup_det.
    + unfold zeros. rewrite length_replicate, length_fmap.
      by eapply box_matches_in_range.
  - intros d Hd Hnot.
    rewrite scatter_lookup_other by done. unfold zeros.
    apply lookup_replicate_2. by rewrite length_fmap.
Qed.

(** C2.  For every detections/labels input of [process_batch], the
    correctness matrix is written from the surviving [matches] rows, and
    among those rows no detection index and no label index occurs twice:
    each detection is matched to at most one label and each label to at
    most one detection. *)
Theorem process_batch_exactly_once (detections : Tensor)
    (labels : list Label) (iouv : list Q) (thr : Q) :
  iouv !! 0 = Some thr →
  process_batch detections labels iouv =
    Ok (scatter (zeros (length detections) (length iouv)) iouv
          (box_matches detections labels thr)) ∧
  NoDup (m_det <$> box_matches detections labels thr) ∧
  NoDup (m_label <$> box_matches detections labels thr).
Proof.
  intros Hthr. split_and!.
  - unfold process_batch, box_matches, box_candidates.
    rewrite (match_correct_Ok _ _ _ _ thr Hthr). by rewrite length_fmap.
  - apply surviving_NoDup_det.
  - apply surviving_NoDup_label.
Qed.

(** C3.  For every correctness matrix returned by [process_batch] over an
    ascending threshold vector, every row [i] and threshold indices
    [t1 <= t2]: a hit at [t2] implies a hit at [t1]. *)
Theorem process_batch_rows_monotone (detections : Tensor)
    (labels : list Label) (iouv : list Q) (correct : BoolMatrix)
    (i : nat) (row : list bool) (t1 t2 : nat) :
  Sorted Qle iouv →
  process_batch detections labels iouv = Ok correct →
  correct !! i = Some row →
  t1 ≤ t2 → row !! t2 = Some true → row !! t1 = Some true.
Proof.
  intros Hs Hres Hrow. apply match_correct_monotone in Hres; [|done].
  rewrite Forall_lookup in Hres. by apply (Hres i row).
Qed.

End Matcher.

(** The scenarios of the specification, run on the box-only evaluator:
    a detection on top of its ground truth is a hit at every threshold,
    the same detection with another class at none. *)
Example process_batch_perfect_match :
  process_batch (H := box_only)
    [mkDetection (mkBox 0 0 10 10) 0.9 0 []] [mkLabel 0 (mkBox 0 0 10 10)]
    self_iouv
  = Ok [replicate 10 true].
Proof. vm_compute. reflexivity. Qed.

Example process_batch_wrong_class :
  process_batch (H := box_only)
    [mkDetection (mkBox 0 0 10 10) 0.9 1 []] [mkLabel 0 (mkBox 0 0 10 10)]
    self_iouv
  = Ok [row_false].
Proof. vm_compute. reflexivity. Qed.

Example np_argsort_stable : np_argsort [0.5; 0.3; 0.9; 0.3]%Q = [1; 3; 0; 2].
Proof. vm_compute. reflexivity. Qed.

Example np_unique_index_first : np_unique_index [3; 1; 3; 0; 1] = [3; 1; 0].
Proof. vm_compute. reflexivity. Qed.

Section MatcherPriority.
Context `{Collaborators}.

(** Line 430 on the candidates sorted by IoU: every detection that has a
    candidate keeps exactly one pair, a candidate of highest IoU among
    its own. *)
Lemma dedup_detections_best (x : list Match) :
  (∀ c, c ∈ x →
     ∃ k, k ∈ dedup_detections (sort_by_iou x) ∧ m_det k = m_det c) ∧
  (∀ k, k ∈ dedup_detections (sort_by_iou x) →
     k ∈ x ∧ ∀ c, c ∈ x → m_det c = m_det k → Qle (m_iou c) (m_iou k)) ∧
  NoDup (m_det <$> dedup_detections (sort_by_iou x)).
Proof.
  split_and!.
  - intros c Hc. apply (unique_rows_covers m_det).
    by rewrite sort_by_iou_Permutation.
  - intros k (i & Hi & Hmin)%elem_of_unique_rows. split.
    { rewrite <- (sort_by_iou_Permutation x). by eapply list_elem_of_lookup_2. }
    intros c Hc Hdet. rewrite <- (sort_by_iou_Permutation x) in Hc.
    apply list_elem_of_lookup in Hc as [j Hj].
    destruct (Nat.lt_trichotomy j i) as [Hlt|[->|Hgt]].
    + by destruct (Hmin j c Hlt Hj).
    + assert (c = k) as -> by congruence. apply Qle_refl.
    + by apply (StronglySorted_lookup _ _ i j k c (sort_by_iou_sorted x)).
  - apply unique_rows_NoDup.
Qed.

(** Line 432 on the rows line 430 leaves, which are in detection order:
    a row survives exactly when no row with its label has a lower
    detection index. *)
Lemma dedup_labels_lowest (s : list Match) (m : Match) :
  m ∈ dedup_labels (dedup_detections s) ↔
  m ∈ dedup_detections s ∧
  ∀ k, k ∈ dedup_detections s → m_label k = m_label m → m_det m ≤ m_det k.
Proof.
  set (kept := dedup_detections s).
  assert (∀ m, m ∈ dedup_labels kept →
    m ∈ kept ∧ ∀ k, k ∈ kept → m_label k = m_label m → m_det m ≤ m_det k)
    as Hdown.
  { intros m' (i & Hi & Hmin)%elem_of_unique_rows. split.
    { by eapply list_elem_of_lookup_2. }
    intros k [j Hj]%list_elem_of_lookup Hlab.
    destruct (Nat.lt_trichotomy j i) as [Hlt|[->|Hgt]].
    - by destruct (Hmin j k Hlt Hj).
    - assert (k = m') as -> by congruence. done.
    - apply (StronglySorted_lookup (≤) (m_det <$> kept) i j).
      + apply unique_rows_sorted.
      + by rewrite list_lookup_fmap, Hi.
      + by rewrite list_lookup_fmap, Hj.
      + done. }
  split; [apply Hdown|]. intros [Hm Hlow].
  destruct (unique_rows_covers m_label kept m Hm) as (m' & Hm' & Hlab).
  destruct (Hdown m' Hm') as [Hk' Hlow'].
  assert (m' = m) as <-; [|done].
  apply (NoDup_fmap_inj_on m_det kept); [apply unique_rows_NoDup|done..|].
  apply Nat.le_antisymm; [apply Hlow'|apply Hlow]; done.
Qed.

(** C1 (as the code has it).  When [process_batch] finds more than one
    candidate pair:
    (1) the detection pass keeps exactly one pair for every detection that
        has a candidate, and that pair has the highest IoU among the
        candidates of its detection;
    (2) the label pass then keeps, for every label, exactly the
        detection-deduplicated pair with the lowest detection index (the
        rows are in detection order by then, line 431 being commented
        out), not the one with the highest IoU;
    (3) every label of a detection-deduplicated pair keeps a pair;
    (4) the returned matrix marks exactly the detections of the surviving
        pairs, each at the thresholds its IoU reaches; so of two
        detections whose kept pairs name the same label, the one with the
        higher index is not marked at any threshold, whatever its IoU;
    (5) in particular, with a single ground truth, the lowest-index
        detection among the candidates is marked and no other detection
        is. *)
Theorem process_batch_label_keeps_lowest_detection (detections : Tensor)
    (labels : list Label) (thr : Q) :
  1 < length (box_candidates detections labels thr) →
  ((∀ c, c ∈ box_candidates detections labels thr →
      ∃ k, k ∈ box_detection_deduplicated detections labels thr ∧
           m_det k = m_det c) ∧
   (∀ k, k ∈ box_detection_deduplicated detections labels thr →
      k ∈ box_candidates detections labels thr ∧
      ∀ c, c ∈ box_candidates detections labels thr →
           m_det c = m_det k → Qle (m_iou c) (m_iou k)) ∧
   NoDup (m_det <$> box_detection_deduplicated detections labels thr)) ∧
  (∀ m, m ∈ box_matches detections labels thr ↔
     m ∈ box_detection_deduplicated detections labels thr ∧
     ∀ k, k ∈ box_detection_deduplicated detections labels thr →
          m_label k = m_label m → m_det m ≤ m_det k) ∧
  (∀ k, k ∈ box_detection_deduplicated detections labels thr →
     ∃ m, m ∈ box_matches detections labels thr ∧ m_label m = m_label k) ∧
  (∀ iouv, iouv !! 0 = Some thr →
     ∃ correct, process_batch detections labels iouv = Ok correct ∧
       (∀ m, m ∈ box_matches detections labels thr →
             correct !! m_det m = Some (thresholds_met iouv (m_iou m))) ∧
       (∀ d, d < length detections →
             d ∉ m_det <$> box_matches detections labels thr →
             correct !! d = Some (replicate (length iouv) false)) ∧
       (∀ k k', k ∈ box_detection_deduplicated detections labels thr →
             k' ∈ box_detection_deduplicated detections labels thr →
             m_label k = m_label k' → m_det k' < m_det k →
             correct !! m_det k = Some (replicate (length iouv) false)) ∧
       (length labels = 1 →
          ∃ m, m ∈ box_candidates detections labels thr ∧
            (∀ c, c ∈ box_candidates detections labels thr →
                  m_det m ≤ m_det c) ∧
            correct !! m_det m = Some (thresholds_met iouv (m_iou m)) ∧
            ∀ d, d < length detections → d ≠ m_det m →
                 correct !! d = Some (replicate (length iouv) false))).
Proof.
  intros Hlen.
  destruct (dedup_detections_best (box_candidates detections labels thr))
    as (Hcover & Hbest & Hnodup).
  assert (∀ m, m ∈ box_matches detections labels thr ↔
     m ∈ box_detection_deduplicated detections labels thr ∧
     ∀ k, k ∈ box_detection_deduplicated detections labels thr →
          m_label k = m_label m → m_det m ≤ m_det k) as Hlowest.
  { intros m. unfold box_matches, box_detection_deduplicated, surviving.
    rewrite decide_True by done. apply dedup_labels_lowest. }
  assert (∀ k, k ∈ box_detection_deduplicated detections labels thr →
     ∃ m, m ∈ box_matches detections labels thr ∧ m_label m = m_label k)
    as Hlabel.
  { intros k Hk. unfold box_matches, surviving.
    rewrite decide_True by done. by apply unique_rows_covers. }
  assert (∀ c, c ∈ box_candidates detections labels thr →
     m_label c < length labels ∧ m_det c < length detections) as Hrange.
  { intros c (lc & Hl & Hd & _)%elem_of_where_matches.
    apply lookup_lt_Some in Hl. apply lookup_lt_Some in Hd.
    rewrite length_fmap in Hl. by rewrite length_fmap in Hd. }
  split_and!; [done..|]. intros iouv Hthr.
  destruct (process_batch_rows detections labels iouv thr Hthr)
    as (correct & Hrun & Hhit & Hmiss).
  exists correct. split_and!; [done..| |].
  - intros k k' Hk Hk' Hlab Hlt. apply Hmiss.
    { by apply Hrange, Hbest. }
    intros (m & Hdet & Hm)%list_elem_of_fmap.
    apply Hlowest in Hm as Hm'. destruct Hm' as [Hmk Hlow].
    assert (m = k) as ->.
    { by apply (NoDup_fmap_inj_on m_det
                  (box_detection_deduplicated detections labels thr)). }
    specialize (Hlow k' Hk' (eq_sym Hlab)). lia.
  - intros Hone.
    assert (∃ c0, c0 ∈ box_candidates detections labels thr) as [c0 Hc0].
    { destruct (box_candidates detections labels thr) as [|c0 cs];
        [cbn in Hlen; lia|]. exists c0. left. }
    destruct (Hcover c0 Hc0) as (k0 & Hk0 & _).
    destruct (Hlabel k0 Hk0) as (m & Hm & _).
    apply Hlowest in Hm as Hm'. destruct Hm' as [Hmk Hlow].
    exists m. split_and!.
    + by apply Hbest.
    + intros c Hc. destruct (Hcover c Hc) as (k & Hk & <-).
      apply Hlow; [done|].
      pose proof (proj1 (Hrange k (proj1 (Hbest k Hk)))).
      pose proof (proj1 (Hrange m (proj1 (Hbest m Hmk)))). lia.
    + by apply Hhit.
    + intros d Hd Hne. apply Hmiss; [done|].
      intros (m' & -> & Hm')%list_elem_of_fmap. apply Hne. f_equal.
      apply (NoDup_fmap_inj_on m_label (box_matches detections labels thr));
        [apply surviving_NoDup_label|done..|].
      apply Hlowest in Hm' as [Hmk' _].
      pose proof (proj1 (Hrange m' (proj1 (Hbest m' Hmk')))).
      pose proof (proj1 (Hrange m (proj1 (Hbest m Hmk)))). lia.
Qed.

End MatcherPriority.

(** C1, witness: the two detections of [ex_detections] are both candidates
    for the one label; detection 0, the one that overlaps it less, is
    marked at the two thresholds its IoU reaches and detection 1 is not
    marked. *)
Lemma process_batch_label_keeps_lowest_detection_witness :
  1 < length (box_candidates (H := box_only) ex_detections [ex_label] 0.5%Q) ∧
  ∃ correct m,
    process_batch (H := box_only) ex_detections [ex_label] self_iouv
      = Ok correct ∧
    m ∈ box_candidates (H := box_only) ex_detections [ex_label] 0.5%Q ∧
    correct !! m_det m = Some (thresholds_met self_iouv (m_iou m)) ∧
    ∀ d, d < length ex_detections → d ≠ m_det m → correct !! d = Some row_false.
Proof.
  split; [vm_compute; lia|].
  destruct (process_batch_label_keeps_lowest_detection (H := box_only)
              ex_detections [ex_label] 0.5%Q) as (_ & _ & _ & Hrows).
  { vm_compute. lia. }
  destruct (Hrows self_iouv eq_refl)
    as (correct & Hrun & _ & _ & _ & Hsingle).
  destruct (Hsingle eq_refl) as (m & Hm & _ & Hhit & Hmiss).
  exists correct, m. split_and!; [exact Hrun|exact Hm|exact Hhit|exact Hmiss].
Defined.

(** C1, counterexample to the claim as stated: detection 1 overlaps the
    label more than detection 0 does, both are candidates of the same
    class, and [process_batch] marks detection 0 and not detection 1; the
    surviving pair is not the highest-IoU pair of its label. *)
Lemma process_batch_keeps_lower_iou_detection :
  Qlt (box_iou_spec (l_box ex_label) (d_box ex_det_loose))
      (box_iou_spec (l_box ex_label) (d_box ex_det_tight)) ∧
  process_batch (H := box_only) ex_detections [ex_label] self_iouv =
    Ok [[true; true; false; false; false; false; false; false; false; false];
        row_false] ∧
  ¬ (∀ m k,
       m ∈ box_matches (H := box_only) ex_detections [ex_label] 0.5%Q →
       k ∈ box_detection_deduplicated (H := box_only)
             ex_detections [ex_label] 0.5%Q →
       m_label k = m_label m → Qle (m_iou k) (m_iou m)).
Proof.
  split_and!.
  - by vm_compute.
  - by vm_compute.
  - intros Hc.
    specialize (Hc (mkMatch 0 0 (box_iou_spec (l_box ex_label) (d_box ex_det_loose)))
                   (mkMatch 0 1 (box_iou_spec (l_box ex_label) (d_box ex_det_tight)))).
    assert (Qle (box_iou_spec (l_box ex_label) (d_box ex_det_tight))
                (box_iou_spec (l_box ex_label) (d_box ex_det_loose))) as Hle.
    { apply Hc; [vm_compute; constructor | | done].
      vm_compute. apply list_elem_of_further. constructor. }
    by vm_compute in Hle.
Qed.

(** C2, witness. *)
Lemma process_batch_exactly_once_witness :
  self_iouv !! 0 = Some 0.5%Q ∧
  NoDup (m_det <$> box_matches (H := box_only) ex_detections [ex_label] 0.5%Q).
Proof.
  split; [reflexivity|].
  apply (process_batch_exactly_once (H := box_only)
           ex_detections [ex_label] self_iouv 0.5%Q). reflexivity.
Defined.

Lemma self_iouv_sorted : Sorted Qle self_iouv.
Proof.
  unfold self_iouv.
  repeat (constructor; try (unfold Qle; cbn; lia)).
Defined.

(** C3, witness: row 0 of the matrix of [ex_detections] is hit at the
    thresholds 0.50 and 0.55. *)
Lemma process_batch_rows_monotone_witness :
  [true; true; false; false; false; false; false; false; false; false]
    !! 0 = Some true.
Proof.
  apply (process_batch_rows_monotone (H := box_only)
           ex_detections [ex_label] self_iouv
           [[true; true; false; false; false; false; false; false; false; false];
            row_false] 0 _ 0 1).
  - apply self_iouv_sorted.
  - vm_compute. reflexivity.
  - reflexivity.
  - lia.
  - reflexivity.
Defined.

(** ** compute_stat *)

Section ComputeStat.
Context `{Collaborators}.

Lemma load_Some l st t : heap st !! l = Some t → load l st = Ok t.
Proof. unfold load. by intros ->. Qed.

Lemma load_Ok l st t : load l st = Ok t → heap st !! l = Some t.
Proof. unfold load. destruct (heap st !! l); congruence. Qed.

Lemma after_coercion_length cfg pr :
  length (after_coercion cfg pr) = length pr.
Proof.
  unfold after_coercion, coerce_cls. destruct (single_cls cfg); [|done].
  by rewrite length_fmap.
Qed.

Lemma load_coerced_state cfg predn pr st :
  heap st !! predn = Some pr →
  load predn (coerced_state cfg predn pr st) = Ok (after_coercion cfg pr).
Proof.
  intros Hheap. unfold coerced_state, after_coercion.
  destruct (single_cls cfg).
  - apply load_Some. unfold store, set_heap. cbn. by rewrite lookup_insert_eq.
  - by apply load_Some.
Qed.

Lemma compute_stat_empty cfg si predn targets gt_masks train_out po st :
  heap st !! predn = Some [] → proto_of train_out si = Ok po →
  compute_stat cfg si predn targets gt_masks train_out st =
  Ok (if decide (labels_of si targets = []) then st
      else push_stat (mkStat [] [] [] [] (t_cls <$> labels_of si targets)) st).
Proof.
  intros Hheap Hpo. unfold compute_stat. rewrite Hpo, bind_Ok_l.
  rewrite (load_Some _ _ _ Hheap), bind_Ok_l.
  rewrite decide_True by done.
  destruct (labels_of si targets) as [|t ts]; [done|].
  by rewrite !decide_True by done.
Qed.

Lemma compute_stat_no_labels cfg si predn targets gt_masks train_out po st pr :
  heap st !! predn = Some pr → pr ≠ [] → proto_of train_out si = Ok po →
  labels_of si targets = [] →
  compute_stat cfg si predn targets gt_masks train_out st =
  Ok (push_stat (mkStat (zeros (length pr) niou) (zeros (length pr) niou)
                   (d_conf <$> after_coercion cfg pr)
                   (d_cls <$> after_coercion cfg pr) [])
        (coerced_state cfg predn pr st)).
Proof.
  intros Hheap Hne Hpo Hlab. unfold compute_stat. rewrite Hpo, bind_Ok_l.
  rewrite (load_Some _ _ _ Hheap), bind_Ok_l.
  rewrite decide_False by (by destruct pr).
  fold (coerced_state cfg predn pr st).
  rewrite (load_coerced_state _ _ _ _ Hheap), bind_Ok_l, Hlab.
  rewrite !decide_False by (cbn; lia). rewrite bind_Ok_l.
  by rewrite after_coercion_length.
Qed.

Lemma compute_stat_labels cfg si predn targets gt_masks train_out po st pr :
  heap st !! predn = Some pr → pr ≠ [] → proto_of train_out si = Ok po →
  labels_of si targets ≠ [] →
  compute_stat cfg si predn targets gt_masks train_out st =
  (correct_boxes ← process_batch (after_coercion cfg pr)
                     (labelsn_of (labels_of si targets)) self_iouv;
   '(correct_masks, pred_maski) ←
     process_batch_masks cfg (after_coercion cfg pr) po
       (masks_of si targets gt_masks) (labelsn_of (labels_of si targets));
   Ok (push_stat (mkStat correct_masks correct_boxes
                    (d_conf <$> after_coercion cfg pr)
                    (d_cls <$> after_coercion cfg pr)
                    (t_cls <$> labels_of si targets))
         (record_plots cfg (after_coercion cfg pr)
            (labelsn_of (labels_of si targets)) pred_maski
            (coerced_state cfg predn pr st)))).
Proof.
  intros Hheap Hne Hpo Hlab. unfold compute_stat. rewrite Hpo, bind_Ok_l.
  rewrite (load_Some _ _ _ Hheap), bind_Ok_l.
  rewrite decide_False by (by destruct pr).
  fold (coerced_state cfg predn pr st).
  rewrite (load_coerced_state _ _ _ _ Hheap), bind_Ok_l.
  rewrite !decide_True by (by destruct (labels_of si targets)).
  destruct (process_batch _ _ _) as [cb|e]; [|done]. rewrite !bind_Ok_l.
  destruct (process_batch_masks _ _ _ _ _) as [[cm pm]|e]; [|done].
  by rewrite !bind_Ok_l.
Qed.

Lemma process_batch_masks_present cfg predn proto gt labels :
  ∃ correct pred_maski,
    process_batch_masks cfg predn (Some proto) (Some gt) labels
    = Ok (correct, Some pred_maski) ∧ length correct = length predn.
Proof.
  unfold process_batch_masks.
  rewrite (match_correct_Ok _ _ _ _ 0.5%Q) by done. rewrite bind_Ok_l.
  eexists _, _. split; [done|].
  unfold zeros. by rewrite scatter_length, length_replicate, length_fmap.
Qed.

Lemma process_batch_masks_returns cfg predn po gt labels :
  (is_Some po ↔ is_Some gt) →
  ∃ res, process_batch_masks cfg predn po gt labels = Ok res.
Proof.
  intros Hiff. destruct po as [proto|], gt as [g|].
  - destruct (process_batch_masks_present cfg predn proto g labels)
      as (c & pm & -> & _). eauto.
  - destruct Hiff as [Hiff _]. by destruct Hiff.
  - destruct Hiff as [_ Hiff]. by destruct Hiff.
  - by eexists.
Qed.

(** C5.  [process_batch_masks] and the both-or-neither contract: with
    exactly one of the prototype output and the ground-truth masks missing
    it raises the assertion error; with both missing it returns a zero-row
    matrix and no predicted masks; with both present it returns one row
    per detection together with the predicted masks. *)
Theorem process_batch_masks_both_or_neither (cfg : Config) (predn : Tensor)
    (labels : list Label) :
  (∀ proto,
     process_batch_masks cfg predn (Some proto) None labels
     = Raise AssertionError) ∧
  (∀ gt,
     process_batch_masks cfg predn None (Some gt) labels
     = Raise AssertionError) ∧
  process_batch_masks cfg predn None None labels = Ok ([], None) ∧
  (∀ proto gt, ∃ correct pred_maski,
     process_batch_masks cfg predn (Some proto) (Some gt) labels
     = Ok (correct, Some pred_maski) ∧ length correct = length predn).
Proof.
  split_and!; [done..|]. intros proto gt.
  apply process_batch_masks_present.
Qed.
Lemma compute_stat_returns cfg si predn targets gt_masks train_out po st pr :
  heap st !! predn = Some pr → proto_of train_out si = Ok po →
  (is_Some po ↔ is_Some gt_masks) →
  ∃ st', compute_stat cfg si predn targets gt_masks train_out st = Ok st'.
Proof.
  intros Hheap Hpo Hiff.
  destruct (decide (pr = [])) as [->|Hne].
  { rewrite (compute_stat_empty _ _ _ _ _ _ po) by done. eauto. }
  destruct (decide (labels_of si targets = [])) as [Hlab|Hlab].
  { rewrite (compute_stat_no_labels _ _ _ _ _ _ po _ pr) by done. eauto. }
  rewrite (compute_stat_labels _ _ _ _ _ _ po _ pr) by done.
  destruct (process_batch_returns (after_coercion cfg pr)
              (labelsn_of (labels_of si targets)) self_iouv) as (cb & -> & _);
    [done|].
  rewrite bind_Ok_l.
  destruct (process_batch_masks_returns cfg (after_coercion cfg pr) po
              (masks_of si targets gt_masks)
              (labelsn_of (labels_of si targets))) as [[cm pm] ->].
  { unfold masks_of. by rewrite fmap_is_Some. }
  rewrite bind_Ok_l. eauto.
Qed.

(** C4.  For an image whose prediction tensor is empty, [compute_stat]
    records nothing when there is no label and otherwise one record whose
    box matrix has zero rows, however many labels there are; for an image
    with detections and no label it records a box matrix with one
    all-false row of 10 columns per detection. *)
Theorem compute_stat_degenerate_shapes (cfg : Config) (si predn : nat)
    (targets : list Target) (gt_masks : option GtMasks)
    (train_out : option (list Proto)) (po : option Proto)
    (st : State) (pr : Tensor) :
  heap st !! predn = Some pr → proto_of train_out si = Ok po →
  (pr = [] →
   ∃ st', compute_stat cfg si predn targets gt_masks train_out st = Ok st' ∧
     stats st' = stats st ++
       (if decide (labels_of si targets = []) then []
        else [mkStat [] [] [] [] (t_cls <$> labels_of si targets)])) ∧
  (pr ≠ [] → labels_of si targets = [] →
   ∃ st' rec,
     compute_stat cfg si predn targets gt_masks train_out st = Ok st' ∧
     stats st' = stats st ++ [rec] ∧
     s_boxes rec = replicate (length pr) (replicate 10 false)).
Proof.
  intros Hheap Hpo. split.
  - intros ->. rewrite (compute_stat_empty _ _ _ _ _ _ po) by done.
    eexists. split; [done|]. case_decide; [|done]. by rewrite app_nil_r.
  - intros Hne Hlab.
    rewrite (compute_stat_no_labels _ _ _ _ _ _ po _ pr) by done.
    eexists _, _. split; [done|]. split.
    + unfold push_stat, coerced_state.
      destruct (single_cls cfg); cbn; reflexivity.
    + done.
Qed.

Lemma coerce_cls_classes (pr : Tensor) :
  d_cls <$> coerce_cls pr = (λ _, 0%Z) <$> pr.
Proof. unfold coerce_cls. by rewrite <- list_fmap_compose. Qed.

(** C9.  In single-class mode, for an image with at least one detection:
    [compute_stat] returns whenever the prototype output and the masks are
    both present or both absent, and whenever it returns, the tensor behind
    [predn] has every class id set to 0, the recorded predicted classes
    are all 0, both matchers have been run on the coerced tensor, and every
    candidate pair of the box matcher has a label of class 0. *)
Theorem compute_stat_single_cls (cfg : Config) (si predn : nat)
    (targets : list Target) (gt_masks : option GtMasks)
    (train_out : option (list Proto)) (st : State) (pr : Tensor) :
  single_cls cfg = true → heap st !! predn = Some pr → pr ≠ [] →
  (∀ po, proto_of train_out si = Ok po → (is_Some po ↔ is_Some gt_masks) →
     ∃ st', compute_stat cfg si predn targets gt_masks train_out st = Ok st') ∧
  (∀ st', compute_stat cfg si predn targets gt_masks train_out st = Ok st' →
     heap st' !! predn = Some (coerce_cls pr) ∧
     ∃ rec, stats st' = stats st ++ [rec] ∧
       s_pcls rec = (λ _, 0%Z) <$> pr ∧
       (labels_of si targets ≠ [] →
        process_batch (coerce_cls pr) (labelsn_of (labels_of si targets))
          self_iouv = Ok (s_boxes rec) ∧
        (∃ po pred_maski,
           process_batch_masks cfg (coerce_cls pr) po
             (masks_of si targets gt_masks)
             (labelsn_of (labels_of si targets))
           = Ok (s_masks rec, pred_maski)) ∧
        ∀ m, m ∈ box_candidates (coerce_cls pr)
                   (labelsn_of (labels_of si targets)) 0.5%Q →
             ∃ l, labelsn_of (labels_of si targets) !! m_label m = Some l ∧
                  l_cls l = 0%Z)).
Proof.
  intros Hsc Hheap Hne. split.
  { intros po Hpo Hiff. by eapply compute_stat_returns. }
  intros st' Hcs.
  assert (∃ po, proto_of train_out si = Ok po) as [po Hpo].
  { unfold compute_stat in Hcs. apply bind_Ok in Hcs as (po & Hpo & _). eauto. }
  assert (after_coercion cfg pr = coerce_cls pr) as Hac.
  { unfold after_coercion. by rewrite Hsc. }
  assert (heap (coerced_state cfg predn pr st) !! predn = Some (coerce_cls pr))
    as Hcoerced.
  { unfold coerced_state. rewrite Hsc. unfold store, set_heap. cbn.
    by rewrite lookup_insert_eq. }
  destruct (decide (labels_of si targets = [])) as [Hlab|Hlab].
  - rewrite (compute_stat_no_labels _ _ _ _ _ _ po _ pr) in Hcs by done.
    injection Hcs as <-. split; [done|]. eexists. split.
    { unfold push_stat, coerced_state. rewrite Hsc. cbn. reflexivity. }
    cbn. rewrite Hac, coerce_cls_classes. done.
  - rewrite (compute_stat_labels _ _ _ _ _ _ po _ pr) in Hcs by done.
    rewrite Hac in Hcs.
    apply bind_Ok in Hcs as (cb & Hcb & Hcs).
    apply bind_Ok in Hcs as ([cm pm] & Hcm & Hcs). injection Hcs as <-.
    split.
    { unfold record_plots. destruct (plots cfg); [|done]. by destruct pm. }
    eexists. split.
    { unfold push_stat, record_plots, coerced_state. rewrite Hsc.
      destruct (plots cfg); [destruct pm|]; cbn; reflexivity. }
    cbn. split; [apply coerce_cls_classes|]. intros _. split_and!; [done|eauto|].
    intros m (c & Hl & Hd & _)%elem_of_where_matches.
    rewrite coerce_cls_classes, list_lookup_fmap in Hd.
    destruct (pr !! m_det m); [|done]. injection Hd as <-.
    apply list_lookup_fmap_Some in Hl as (l & Hl & Hc). eauto.
Qed.

(** What [compute_stat] leaves alone: every tensor other than the one it
    is given, the images seen and the result files. *)
Lemma compute_stat_frame cfg si predn targets gt_masks train_out st st' :
  compute_stat cfg si predn targets gt_masks train_out st = Ok st' →
  (∀ l, l ≠ predn → heap st' !! l = heap st !! l) ∧
  txt st' = txt st ∧ jdict st' = jdict st ∧ seen st' = seen st.
Proof.
  intros Hcs.
  assert (∃ po pr, proto_of train_out si = Ok po ∧ heap st !! predn = Some pr)
    as (po & pr & Hpo & Hheap).
  { unfold compute_stat in Hcs. apply bind_Ok in Hcs as (po & Hpo & Hcs).
    apply bind_Ok in Hcs as (pr & Hpr%load_Ok & _). eauto. }
  assert ((∀ l, l ≠ predn →
             heap (coerced_state cfg predn pr st) !! l = heap st !! l) ∧
          txt (coerced_state cfg predn pr st) = txt st ∧
          jdict (coerced_state cfg predn pr st) = jdict st ∧
          seen (coerced_state cfg predn pr st) = seen st) as Hco.
  { unfold coerced_state. destruct (single_cls cfg); [|done].
    split_and!; [|done..]. intros l Hl. unfold store, set_heap. cbn.
    by rewrite lookup_insert_ne. }
  destruct (decide (pr = [])) as [->|Hne].
  { rewrite (compute_stat_empty _ _ _ _ _ _ po) in Hcs by done.
    injection Hcs as <-. by case_decide. }
  destruct (decide (labels_of si targets = [])) as [Hlab|Hlab].
  { rewrite (compute_stat_no_labels _ _ _ _ _ _ po _ pr) in Hcs by done.
    by injection Hcs as <-. }
  rewrite (compute_stat_labels _ _ _ _ _ _ po _ pr) in Hcs by done.
  apply bind_Ok in Hcs as (cb & Hcb & Hcs).
  apply bind_Ok in Hcs as ([cm pm] & Hcm & Hcs). injection Hcs as <-.
  unfold push_stat, record_plots.
  destruct (plots cfg); [destruct pm|]; done.
Qed.

End ComputeStat.

(** ** The per-image loop body: aliasing of the prediction tensor *)

Section RunImage.
Context `{Collaborators}.

Lemma clone_Ok l st t :
  heap st !! l = Some t →
  ∃ l', l' ≠ l ∧ heap st !! l' = None ∧ clone l st = Ok (l', store l' t st).
Proof.
  intros Hl. exists (fresh (dom (heap st))).
  assert (fresh (dom (heap st)) ∉ dom (heap st)) as Hfresh by apply is_fresh.
  split_and!.
  - intros Heq. apply Hfresh. rewrite Heq. apply elem_of_dom. eauto.
  - by apply not_elem_of_dom.
  - unfold clone. by rewrite (load_Some _ _ _ Hl).
Qed.

Lemma save_one_txt_Ok predn save_conf shape file st st' :
  save_one_txt predn save_conf shape file st = Ok st' →
  ∃ lines, mapM (txt_line save_conf shape) predn = Ok lines ∧
    st' = set_txt (txt st ++ ((λ l, (file, l)) <$> lines)) st.
Proof.
  unfold save_one_txt. intros (lines & Hl & [= <-])%bind_Ok. eauto.
Qed.

Lemma save_one_json_Ok predn stem cmap st st' :
  save_one_json predn stem cmap st = Ok st' →
  ∃ recs, mapM (json_record cmap (image_id_of stem)) predn = Ok recs ∧
    st' = set_jdict (jdict st ++ recs) st.
Proof.
  unfold save_one_json. intros (recs & Hl & [= <-])%bind_Ok. eauto.
Qed.

Lemma run_image_returns cfg save_txt save_conf save_json targets gt_masks
    train_out si pred stem shape st orig po lines recs :
  heap st !! pred = Some orig →
  proto_of train_out si = Ok po → (is_Some po ↔ is_Some gt_masks) →
  mapM (txt_line save_conf shape) orig = Ok lines →
  mapM (json_record (class_map cfg) (image_id_of stem)) orig = Ok recs →
  ∃ st', run_image cfg save_txt save_conf save_json targets gt_masks
           train_out si pred stem shape st = Ok st'.
Proof.
  intros Hheap Hpo Hiff Hlines Hrecs.
  destruct (clone_Ok pred (set_seen (seen st + 1) st) orig Hheap)
    as (predn & Hne & Hfree & Hclone).
  set (st1 := store predn orig (set_seen (seen st + 1) st)) in *.
  assert (heap st1 !! predn = Some orig) as Hpredn.
  { unfold st1, store, set_heap. cbn. by rewrite lookup_insert_eq. }
  assert (heap st1 !! pred = Some orig) as Hpred.
  { unfold st1, store, set_heap. cbn. by rewrite lookup_insert_ne. }
  unfold run_image. rewrite Hclone, bind_Ok_l.
  destruct (compute_stat_returns cfg si predn targets gt_masks train_out
              po st1 orig Hpredn Hpo Hiff) as [st2 Hcs].
  rewrite Hcs, bind_Ok_l.
  apply compute_stat_frame in Hcs as (Hfr & _).
  assert (load pred st2 = Ok orig) as Hl2.
  { apply load_Some. by rewrite Hfr. }
  destruct (save_txt && save_dir_exists cfg).
  - rewrite Hl2, bind_Ok_l. unfold save_one_txt. rewrite Hlines, !bind_Ok_l.
    destruct (save_json && save_dir_exists cfg); [|eauto].
    unfold load, set_txt. cbn. rewrite Hfr, Hpred by done. rewrite bind_Ok_l.
    unfold save_one_json. rewrite Hrecs. eauto.
  - rewrite bind_Ok_l. destruct (save_json && save_dir_exists cfg); [|eauto].
    rewrite Hl2, bind_Ok_l. unfold save_one_json. rewrite Hrecs. eauto.
Qed.

(** What one pass of the loop body does to the heap and to the result
    files. *)
Lemma run_image_inv cfg save_txt save_conf save_json targets gt_masks
    train_out si pred stem shape st st' orig :
  heap st !! pred = Some orig →
  run_image cfg save_txt save_conf save_json targets gt_masks
    train_out si pred stem shape st = Ok st' →
  (∀ l t, heap st !! l = Some t → heap st' !! l = Some t) ∧
  (save_txt && save_dir_exists cfg = true →
   ∃ lines, mapM (txt_line save_conf shape) orig = Ok lines ∧
            txt st' = txt st ++ ((λ l, (stem, l)) <$> lines)) ∧
  (save_json && save_dir_exists cfg = true →
   ∃ recs,
     mapM (json_record (class_map cfg) (image_id_of stem)) orig = Ok recs ∧
     jdict st' = jdict st ++ recs).
Proof.
  intros Hheap Hrun.
  destruct (clone_Ok pred (set_seen (seen st + 1) st) orig Hheap)
    as (predn & Hne & Hfree & Hclone).
  set (st1 := store predn orig (set_seen (seen st + 1) st)) in *.
  assert (∀ l t, heap st !! l = Some t → l ≠ predn ∧ heap st1 !! l = Some t)
    as Hlive.
  { intros l t Hl. assert (l ≠ predn) by (intros ->; cbn in Hfree; congruence).
    split; [done|]. unfold st1, store, set_heap. cbn.
    by rewrite lookup_insert_ne. }
  unfold run_image in Hrun. rewrite Hclone, bind_Ok_l in Hrun.
  apply bind_Ok in Hrun as (st2 & Hcs & Hrun).
  apply compute_stat_frame in Hcs as (Hfr & Htxt & Hj & _).
  assert (∀ l t, heap st !! l = Some t → heap st2 !! l = Some t) as Hlive2.
  { intros l t [Hl1 Hl2]%Hlive. by rewrite Hfr. }
  assert (load pred st2 = Ok orig) as Hl2 by (apply load_Some; eauto).
  apply bind_Ok in Hrun as (st3 & Htx & Hrun).
  assert (heap st3 = heap st2 ∧ jdict st3 = jdict st2 ∧
          (save_txt && save_dir_exists cfg = true →
           ∃ lines, mapM (txt_line save_conf shape) orig = Ok lines ∧
                    txt st3 = txt st ++ ((λ l, (stem, l)) <$> lines)))
    as (Hh3 & Hj3 & Ht3).
  { destruct (save_txt && save_dir_exists cfg).
    - rewrite Hl2, bind_Ok_l in Htx.
      apply save_one_txt_Ok in Htx as (lines & Hlines & ->).
      split_and!; [done..|]. intros _. exists lines. split; [done|].
      cbn. by rewrite Htxt.
    - injection Htx as <-. done. }
  assert (load pred st3 = Ok orig) as Hl3.
  { apply load_Some. rewrite Hh3. eauto. }
  destruct (save_json && save_dir_exists cfg).
  - rewrite Hl3, bind_Ok_l in Hrun.
    apply save_one_json_Ok in Hrun as (recs & Hrecs & ->).
    split_and!.
    + intros l t Hl. cbn. rewrite Hh3. eauto.
    + done.
    + intros _. exists recs. split; [done|]. cbn. by rewrite Hj3, Hj.
  - injection Hrun as <-. split_and!; [|done..].
    intros l t Hl. rewrite Hh3. eauto.
Qed.

(** C10.  [run] hands [compute_stat] a clone of the prediction tensor:
    whenever the loop body returns, the tensor behind [pred], like every
    tensor alive before the call, is the one it was (class ids and
    coordinates untouched, also in single-class mode), and the text lines
    and JSON records that were written are those computed from that
    original tensor.  The body returns whenever the mask inputs are
    consistent and the two writers succeed. *)
Theorem run_image_keeps_prediction (cfg : Config)
    (save_txt save_conf save_json : bool) (targets : list Target)
    (gt_masks : option GtMasks) (train_out : option (list Proto))
    (si pred : nat) (stem : string) (shape : Q * Q) (st : State)
    (orig : Tensor) :
  heap st !! pred = Some orig →
  (∀ po lines recs,
     proto_of train_out si = Ok po → (is_Some po ↔ is_Some gt_masks) →
     mapM (txt_line save_conf shape) orig = Ok lines →
     mapM (json_record (class_map cfg) (image_id_of stem)) orig = Ok recs →
     ∃ st', run_image cfg save_txt save_conf save_json targets gt_masks
              train_out si pred stem shape st = Ok st') ∧
  (∀ st', run_image cfg save_txt save_conf save_json targets gt_masks
            train_out si pred stem shape st = Ok st' →
     heap st' !! pred = Some orig ∧
     (∀ l t, heap st !! l = Some t → heap st' !! l = Some t) ∧
     (save_txt && save_dir_exists cfg = true →
      ∃ lines, mapM (txt_line save_conf shape) orig = Ok lines ∧
               txt st' = txt st ++ ((λ l, (stem, l)) <$> lines)) ∧
     (save_json && save_dir_exists cfg = true →
      ∃ recs,
        mapM (json_record (class_map cfg) (image_id_of stem)) orig = Ok recs ∧
        jdict st' = jdict st ++ recs)).
Proof.
  intros Hheap. split.
  - intros po lines recs. by apply run_image_returns.
  - intros st' Hrun.
    destruct (run_image_inv _ _ _ _ _ _ _ _ _ _ _ _ _ _ Hheap Hrun)
      as (Hlive & Htxt & Hjson).
    split_and!; [by apply Hlive|done..].
Qed.

Lemma run_images_raise cfg save_txt save_conf save_json targets gt_masks
    train_out paths shapes e ips :
  foldl (run_images_step cfg save_txt save_conf save_json targets gt_masks
           train_out paths shapes) (Raise e) ips = Raise e.
Proof. by induction ips. Qed.

(** Over the whole batch: every prediction tensor of [out], like every
    tensor alive before the loop, is unchanged after it. *)
Lemma run_images_keep_predictions cfg save_txt save_conf save_json targets
    gt_masks train_out paths shapes out st st' :
  (∀ pred, pred ∈ out → is_Some (heap st !! pred)) →
  run_images cfg save_txt save_conf save_json targets gt_masks train_out
    paths shapes out st = Ok st' →
  ∀ l t, heap st !! l = Some t → heap st' !! l = Some t.
Proof.
  unfold run_images.
  assert (∀ ips st,
    (∀ ip, ip ∈ ips → is_Some (heap st !! ip.2)) →
    foldl (run_images_step cfg save_txt save_conf save_json targets gt_masks
             train_out paths shapes) (Ok st) ips = Ok st' →
    ∀ l t, heap st !! l = Some t → heap st' !! l = Some t) as Hloop.
  { clear st. induction ips as [|ip ips IH]; intros st Hlive Hrun l t Hl.
    { injection Hrun as <-. done. }
    cbn [foldl] in Hrun.
    destruct (run_images_step _ _ _ _ _ _ _ _ _ (Ok st) ip) as [st1|e] eqn:E;
      [|by rewrite run_images_raise in Hrun].
    unfold run_images_step in E. rewrite bind_Ok_l in E.
    apply bind_Ok in E as (stem & _ & E). apply bind_Ok in E as (shape & _ & E).
    destruct (Hlive ip) as [orig Horig]; [left|].
    destruct (run_image_inv _ _ _ _ _ _ _ _ _ _ _ _ _ _ Horig E)
      as (Hkeep & _).
    apply (IH st1); [|done|by apply Hkeep].
    intros ip' Hip'. destruct (Hlive ip') as [t' Ht']; [by right|].
    exists t'. by apply Hkeep. }
  intros Hout. apply Hloop.
  intros ip (i & pred & -> & Hi)%elem_of_lookup_imap. apply Hout.
  by eapply list_elem_of_lookup_2.
Qed.

End RunImage.

(** C4, witness: reference 7 holds an empty tensor, image 0 has one label. *)
Lemma compute_stat_degenerate_shapes_witness :
  heap (store (H := box_only) 7 [] ex_state) !! 7 = Some [] ∧
  ∃ st',
    compute_stat (H := box_only) ex_config 0 7 ex_targets None None
      (store (H := box_only) 7 [] ex_state) = Ok st' ∧
    stats st' = [mkStat [] [] [] [] [0%Z]].
Proof.
  split; [reflexivity|].
  apply (proj1 (compute_stat_degenerate_shapes (H := box_only) ex_config 0 7
                  ex_targets None None None
                  (store (H := box_only) 7 [] ex_state) []
                  eq_refl eq_refl) eq_refl).
Defined.

(** C9, witness: the tensor at reference 0 predicts class 1 twice. *)
Lemma compute_stat_single_cls_witness :
  single_cls ex_config = true ∧ heap ex_state !! 0 = Some ex_pred ∧
  ∃ st', compute_stat (H := box_only) ex_config 0 0 ex_targets None None
           ex_state = Ok st'.
Proof.
  split; [reflexivity|]. split; [reflexivity|].
  apply (proj1 (compute_stat_single_cls (H := box_only) ex_config 0 0
                  ex_targets None None ex_state ex_pred
                  eq_refl eq_refl ltac:(discriminate)) None eq_refl).
  split; intros [? [=]].
Defined.

(** C10, witness: a single-class run that saves both result files. *)
Lemma run_image_keeps_prediction_witness :
  heap ex_state !! 0 = Some ex_pred ∧
  ∃ st', run_image (H := box_only) ex_config true true true ex_targets
           None None 0 0 "im0" (100, 100)%Q ex_state = Ok st'.
Proof.
  split; [reflexivity|].
  eapply (proj1 (run_image_keeps_prediction (H := box_only) ex_config
                   true true true ex_targets None None 0 0 "im0"
                   (100, 100)%Q ex_state ex_pred eq_refl) None).
  - reflexivity.
  - split; intros [? [=]].
  - reflexivity.
  - reflexivity.
Defined.

(** The same run, evaluated: the text lines and JSON records carry the
    predicted class 1, the recorded statistics carry class 0. *)
Example run_image_single_cls_outputs :
  (st' ← run_image (H := box_only) ex_config true false true ex_targets
           None None 0 0 "im0" (100, 100)%Q ex_state;
   Ok (head <$> (snd <$> txt st'), j_category_id <$> jdict st',
       s_pcls <$> stats st', heap st' !! 0))
  = Ok ([Some 1%Q; Some 1%Q], [1%Z; 1%Z], [[0%Z; 0%Z]], Some ex_pred).
Proof. vm_compute. reflexivity. Qed.

(** ** Metric *)

Lemma ap_length (m : Metric) : length (ap m) = length (all_ap m).
Proof.
  unfold ap. case_decide as Hl; [by rewrite length_fmap|].
  destruct (all_ap m); [done|]. cbn in Hl. lia.
Qed.

Lemma ap_lookup (m : Metric) (i : nat) : ap m !! i = mean <$> all_ap m !! i.
Proof.
  unfold ap. case_decide as Hl; [by rewrite list_lookup_fmap|].
  destruct (all_ap m); [done|]. cbn in Hl. lia.
Qed.

Lemma get_maps_prefix (m : Metric) (nc : nat) (cs : list Z) :
  length cs ≤ length (ap m) →
  Forall (λ c, (0 ≤ c < Z.of_nat nc)%Z) cs →
  ∃ maps,
    foldl (get_maps_step m) (Ok (replicate nc (map_ m))) (imap pair cs)
    = Ok maps ∧
    length maps = nc ∧
    (∀ i c, cs !! i = Some c → (∀ j, i < j → cs !! j ≠ Some c) →
            maps !! Z.to_nat c = ap m !! i) ∧
    (∀ k, k < nc → Z.of_nat k ∉ cs → maps !! k = Some (map_ m)).
Proof.
  induction cs as [|c cs IH] using rev_ind; intros Hlen Hrange.
  { eexists. split; [done|]. split_and!.
    - apply length_replicate.
    - done.
    - intros k Hk _. by apply lookup_replicate_2. }
  rewrite length_app in Hlen. cbn in Hlen.
  rewrite Forall_app, Forall_singleton in Hrange. destruct Hrange as [Hcs Hc].
  destruct IH as (maps & Hmaps & Hmlen & Hhit & Hmiss); [lia|done|].
  destruct (lookup_lt_is_Some_2 (ap m) (length cs)) as [v Hv]; [lia|].
  exists (<[Z.to_nat c := v]> maps). split_and!.
  - rewrite imap_app, foldl_app, Hmaps. cbn.
    unfold get_maps_step, py_index. cbn. rewrite Nat.add_0_r, Hv. cbn.
    unfold np_setitem. rewrite Hmlen. by rewrite decide_True by lia.
  - by rewrite length_insert.
  - intros i c' Hi Hlast.
    destruct (decide (i = length cs)) as [->|Hne].
    + rewrite list_lookup_middle in Hi by done. injection Hi as <-.
      rewrite list_lookup_insert_eq by lia. done.
    + assert (i < length cs) as Hlt.
      { apply lookup_lt_Some in Hi. rewrite length_app in Hi. cbn in Hi. lia. }
      rewrite lookup_app_l in Hi by done.
      assert (c' ≠ c) as Hcc.
      { intros ->. apply (Hlast (length cs) Hlt).
        by rewrite list_lookup_middle. }
      assert (0 ≤ c')%Z as Hc'.
      { rewrite Forall_forall in Hcs.
        apply (Hcs c'). by eapply list_elem_of_lookup_2. }
      rewrite list_lookup_insert_ne by lia.
      apply Hhit; [done|]. intros j Hj Hcj. apply (Hlast j Hj).
      rewrite lookup_app_l; [done|]. by eapply lookup_lt_Some.
  - intros k Hk Hnot. rewrite not_elem_of_app in Hnot.
    destruct Hnot as [Hnot Hkc]. rewrite list_elem_of_singleton in Hkc.
    rewrite list_lookup_insert_ne by lia. by apply Hmiss.
Qed.

(** C7.  For a metric whose AP matrix has one row per entry of
    [ap_class_index] and a class count [nc] above every class in it,
    [get_maps nc] returns an array of length exactly [nc]; its entry [c]
    is the mean over the thresholds of the AP row of class [c] when [c]
    is in [ap_class_index] (the last row, should [c] be listed twice), and
    the global mean AP otherwise. *)
Theorem get_maps_dense (m : Metric) (nc : nat) :
  length (all_ap m) = length (ap_class_index m) →
  Forall (λ c, (0 ≤ c < Z.of_nat nc)%Z) (ap_class_index m) →
  ∃ maps, get_maps m nc = Ok maps ∧ length maps = nc ∧
    (∀ i c, ap_class_index m !! i = Some c →
            (∀ j, i < j → ap_class_index m !! j ≠ Some c) →
            ∃ row, all_ap m !! i = Some row ∧
                   maps !! Z.to_nat c = Some (mean row)) ∧
    (∀ k, k < nc → Z.of_nat k ∉ ap_class_index m →
          maps !! k = Some (map_ m)).
Proof.
  intros Hlen Hrange.
  destruct (get_maps_prefix m nc (ap_class_index m))
    as (maps & Hmaps & Hmlen & Hhit & Hmiss); [by rewrite ap_length, Hlen|done|].
  exists maps. split_and!; [done..| |done].
  intros i c Hi Hlast.
  destruct (lookup_lt_is_Some_2 (all_ap m) i) as [row Hrow].
  { rewrite Hlen. by eapply lookup_lt_Some. }
  exists row. split; [done|].
  by rewrite (Hhit i c Hi Hlast), ap_lookup, Hrow.
Qed.

(** C7, witness. *)
Lemma get_maps_dense_witness :
  length (all_ap ex_metric) = length (ap_class_index ex_metric) ∧
  ∃ maps, get_maps ex_metric 3 = Ok maps ∧ length maps = 3.
Proof.
  split; [reflexivity|].
  destruct (get_maps_dense ex_metric 3) as (maps & Hm & Hl & _).
  - reflexivity.
  - repeat constructor; cbn; lia.
  - exists maps. by split.
Defined.

(** ** after_infer *)

Lemma speeds_Ok (dts : list Q) (n : nat) :
  n ≠ 0 →
  speeds dts n = Ok ((λ x, (x / inject_Z (Z.of_nat n) * 1000)%Q) <$> dts).
Proof.
  intros Hn. unfold speeds. induction dts as [|x dts IH]; [done|].
  cbn [mapM]. rewrite IH. unfold py_div. by rewrite decide_False by done.
Qed.

Lemma speeds_zero (dts : list Q) :
  dts ≠ [] → speeds dts 0 = Raise ZeroDivisionError.
Proof. by destruct dts. Qed.

Lemma any_all_false (a : BoolMatrix) : all_false a → any a = false.
Proof.
  unfold any. induction 1 as [|row a Hrow _ IH]; [done|].
  cbn. rewrite IH, orb_false_r.
  induction Hrow as [|b row -> _ IHrow]; [done|]. done.
Qed.

Lemma all_false_concat (ms : list BoolMatrix) :
  Forall all_false ms → all_false (concat ms).
Proof. apply Forall_concat. Qed.

Lemma get_maps_init (nc : nat) :
  get_maps Metric_init nc = Ok (replicate nc 0%Q).
Proof. done. Qed.

Section AfterInfer.
Context `{Collaborators}.

Lemma initial_metric_reports (cfg : Config) (h : gmap nat Tensor) :
  metric_mean_results (metric (initial_state cfg h))
    = Ok (replicate (if mask cfg then 8 else 4) 0%Q) ∧
  metric_get_maps (metric (initial_state cfg h)) (nc cfg)
    = Ok (replicate (nc cfg) 0%Q) ∧
  metric_ap_class_index (metric (initial_state cfg h)) = [].
Proof.
  unfold initial_state. cbn [metric]. destruct (mask cfg); [|done].
  split_and!; [done| |done]. unfold metric_get_maps.
  rewrite !get_maps_init, !bind_Ok_l. by rewrite zip_with_replicate.
Qed.

Lemma print_metric_initial cfg nt k n h :
  print_metric cfg nt k n (metric (initial_state cfg h)) =
  Ok [mkRow "all" n (Qsum nt) (replicate (if mask cfg then 8 else 4) 0%Q)].
Proof.
  destruct (initial_metric_reports cfg h) as (Hmean & _ & Hidx).
  unfold print_metric. rewrite Hmean, bind_Ok_l, Hidx.
  by destruct (verbose cfg && bool_decide (1 < nc cfg)
               && bool_decide (k ≠ 0)).
Qed.

(** C6 (as the code has it).  With zero images seen and a timing bucket
    to divide, the per-image speed computation of [after_infer] is not
    guarded: the division by [self.seen] raises, so [after_infer] returns
    no speed report; the mean metrics of the never-updated metric are
    zero values. *)
Theorem after_infer_division_unguarded (cfg : Config) (st : State) :
  seen st = 0 → dt st ≠ [] →
  speeds (dt st) (seen st) = Raise ZeroDivisionError ∧
  (∀ res, after_infer cfg st ≠ Ok res) ∧
  metric_mean_results (metric (initial_state cfg (heap st)))
    = Ok (replicate (if mask cfg then 8 else 4) 0%Q).
Proof.
  intros Hseen Hdt. split_and!.
  - rewrite Hseen. by apply speeds_zero.
  - intros res Hres. unfold after_infer in Hres.
    apply bind_Ok in Hres as (cols & _ & Hres).
    apply bind_Ok in Hres as ([ms nt] & _ & Hres).
    apply bind_Ok in Hres as (rows & _ & Hres).
    apply bind_Ok in Hres as (t & Ht & _).
    cbn [dt seen set_printed set_stats set_metric] in Ht.
    rewrite Hseen, speeds_zero in Ht; done.
  - apply initial_metric_reports.
Qed.

(** When every entry of every recorded correctness matrix is false and
    the metric has never been updated, [after_infer] on a run that
    recorded at least one image returns without running the per-class
    aggregation: the metric is left as it was, its mean results are all
    0.0, which is what the report line shows, and so is every entry of
    [get_maps]; the properties [mp], [mr], [map50] and [map] of a
    never-updated [Metric] are 0.0. *)
Lemma after_infer_all_false_recorded (cfg : Config) (st : State) :
  stats st ≠ [] → seen st ≠ 0 →
  Forall (λ rec, all_false (s_masks rec) ∧ all_false (s_boxes rec))
         (stats st) →
  metric st = metric (initial_state cfg (heap st)) →
  (mp Metric_init = 0%Q ∧ mr Metric_init = 0%Q ∧
   map50 Metric_init = Ok 0%Q ∧ map_ Metric_init = 0%Q) ∧
  ∃ t st', after_infer cfg st = Ok (t, st') ∧
    metric st' = metric st ∧ stats st' = [] ∧
    printed st' = printed st ++
      [mkRow "all" (seen st) 0%Q (replicate (if mask cfg then 8 else 4) 0%Q)] ∧
    metric_mean_results (metric st')
      = Ok (replicate (if mask cfg then 8 else 4) 0%Q) ∧
    metric_get_maps (metric st') (nc cfg) = Ok (replicate (nc cfg) 0%Q).
Proof.
  intros Hstats Hseen Hfalse Hinit. split; [done|].
  destruct (initial_metric_reports cfg (heap st)) as (Hmean & Hmaps & _).
  unfold after_infer.
  destruct (stats st) as [|s0 ss] eqn:Hst; [done|].
  cbn [concat_stats]. rewrite bind_Ok_l.
  unfold aggregate. cbn [s_masks s_boxes].
  rewrite (any_all_false (concat (s_masks <$> s0 :: ss))).
  2:{ apply all_false_concat, Forall_fmap. eapply Forall_impl; [done|].
      by intros rec [? ?]. }
  rewrite (any_all_false (concat (s_boxes <$> s0 :: ss))).
  2:{ apply all_false_concat, Forall_fmap. eapply Forall_impl; [done|].
      by intros rec [? ?]. }
  cbn [orb]. rewrite bind_Ok_l. cbn [seen set_stats set_metric].
  eexists _, _. split.
  - rewrite Hinit at 1. rewrite print_metric_initial, bind_Ok_l.
    cbn [dt seen set_printed set_stats set_metric].
    rewrite (speeds_Ok _ _ Hseen), bind_Ok_l. reflexivity.
  - cbn [metric stats set_printed set_stats set_metric]. by rewrite Hinit.
Qed.

(** C8 (the code departs from it).  On an evaluator that has seen images,
    whose metric has never been updated and whose recorded correctness
    matrices are all false throughout, the properties [mp], [mr], [map50]
    and [map] are 0.0, and
    - with at least one record, [after_infer] skips the per-class
      aggregation and reports 0.0: the mean results and every entry of
      [get_maps];
    - with no record at all (no image of the run had a detection or a
      label), [after_infer] reports nothing: line 388 indexes [stats[0]]
      before line 390 tests [len(stats)], and raises IndexError. *)
Theorem after_infer_zero_true_positives (cfg : Config) (st : State) :
  seen st ≠ 0 →
  Forall (λ rec, all_false (s_masks rec) ∧ all_false (s_boxes rec))
         (stats st) →
  metric st = metric (initial_state cfg (heap st)) →
  (mp Metric_init = 0%Q ∧ mr Metric_init = 0%Q ∧
   map50 Metric_init = Ok 0%Q ∧ map_ Metric_init = 0%Q) ∧
  match stats st with
  | [] => after_infer cfg st = Raise IndexError
  | _ :: _ =>
      ∃ t st', after_infer cfg st = Ok (t, st') ∧
        metric st' = metric st ∧ stats st' = [] ∧
        printed st' = printed st ++
          [mkRow "all" (seen st) 0%Q
                 (replicate (if mask cfg then 8 else 4) 0%Q)] ∧
        metric_mean_results (metric st')
          = Ok (replicate (if mask cfg then 8 else 4) 0%Q) ∧
        metric_get_maps (metric st') (nc cfg) = Ok (replicate (nc cfg) 0%Q)
  end.
Proof.
  intros Hseen Hfalse Hinit. split; [done|].
  destruct (stats st) as [|s0 ss] eqn:Hst.
  - unfold after_infer. by rewrite Hst.
  - apply after_infer_all_false_recorded; [|done| |done].
    + by rewrite Hst.
    + by rewrite Hst.
Qed.

End AfterInfer.

(** C6, counterexample to the claim as stated: on the evaluator as
    [__init__] leaves it (no image seen, no record) [after_infer] raises,
    and so does the speed computation of line 405 on its own. *)
Lemma after_infer_empty_run_raises :
  after_infer (H := box_only) ex_config
    (initial_state (H := box_only) ex_config ∅) = Raise IndexError ∧
  speeds (dt (initial_state (H := box_only) ex_config ∅))
         (seen (initial_state (H := box_only) ex_config ∅))
    = Raise ZeroDivisionError.
Proof. split; reflexivity. Qed.

(** C6, witness. *)
Lemma after_infer_division_unguarded_witness :
  seen (initial_state (H := box_only) ex_config ∅) = 0 ∧
  ∀ res, after_infer (H := box_only) ex_config
           (initial_state (H := box_only) ex_config ∅) ≠ Ok res.
Proof.
  split; [reflexivity|].
  apply (after_infer_division_unguarded (H := box_only) ex_config
           (initial_state (H := box_only) ex_config ∅) eq_refl).
  discriminate.
Defined.

(** C8, witness: the evaluator after one image without detections and
    labels has seen an image and holds no record, so no recorded matrix
    has a hit; [after_infer] raises. *)
Lemma after_infer_zero_true_positives_witness :
  seen ex_state_unrecorded ≠ 0 ∧ stats ex_state_unrecorded = [] ∧
  after_infer (H := box_only) ex_config ex_state_unrecorded
    = Raise IndexError.
Proof.
  split; [discriminate|]. split; [reflexivity|].
  destruct (after_infer_zero_true_positives (H := box_only) ex_config
              ex_state_unrecorded) as [_ Hrun].
  - discriminate.
  - constructor.
  - reflexivity.
  - exact Hrun.
Defined.

(** [ex_state_unrecorded] is where the loop of [run] leaves the evaluator
    after the one image of [ex_state_background]: the same counter, record
    buffer, timings, report, metric and tensors. *)
Example run_images_background_state :
  (st' ← run_images (H := box_only) ex_config false false false [] None
           None ["im0"] [(100, 100)%Q] [0] ex_state_background;
   Ok (seen st', stats st', dt st', printed st', metric st',
       heap st' !! 0, heap st' !! 1, heap st' !! 2))
  = Ok (seen ex_state_unrecorded, stats ex_state_unrecorded,
        dt ex_state_unrecorded, printed ex_state_unrecorded,
        metric ex_state_unrecorded, heap ex_state_unrecorded !! 0,
        heap ex_state_unrecorded !! 1, heap ex_state_unrecorded !! 2).
Proof. vm_compute. reflexivity. Qed.

(** With one record, all false, [after_infer] returns and the metric is
    the never-updated one. *)
Example after_infer_all_false_recorded_run :
  ∃ t st', after_infer (H := box_only) ex_config ex_state_no_tp = Ok (t, st') ∧
           metric st' = metric ex_state_no_tp.
Proof.
  destruct (after_infer_all_false_recorded (H := box_only) ex_config
              ex_state_no_tp) as (_ & t & st' & Hrun & Hm & _).
  - discriminate.
  - discriminate.
  - repeat constructor.
  - reflexivity.
  - exists t, st'. by split.
Qed.

(** * Further properties of the evaluator *)


(** ** More on the matcher *)

Lemma surviving_in_range iou thr lcls dcls (m : Match) :
  m ∈ surviving (where_matches iou thr lcls dcls) →
  m_label m < length lcls ∧ m_det m < length dcls.
Proof.
  intros (c & Hl & Hd & _)%surviving_subseteq%elem_of_where_matches.
  split; by eapply lookup_lt_Some.
Qed.

(** The matrix of the shared matcher, row by row. *)
Lemma match_correct_rows iou lcls dcls iouv thr :
  iouv !! 0 = Some thr →
  ∃ correct, match_correct iou lcls dcls iouv = Ok correct ∧
    length correct = length dcls ∧
    (∀ m, m ∈ surviving (where_matches iou thr lcls dcls) →
          correct !! m_det m = Some (thresholds_met iouv (m_iou m))) ∧
    (∀ d, d < length dcls →
          d ∉ m_det <$> surviving (where_matches iou thr lcls dcls) →
          correct !! d = Some (replicate (length iouv) false)).
Proof.
  intros Hthr. eexists. split_and!.
  - by apply (match_correct_Ok _ _ _ _ thr).
  - unfold zeros. by rewrite scatter_length, length_replicate.
  - intros m Hm. apply scatter_lookup_match; [|done|].
    + apply surviving_NoDup_det.
    + unfold zeros. rewrite length_replicate.
      by eapply surviving_in_range.
  - intros d Hd Hnot.
    rewrite scatter_lookup_other by done. unfold zeros.
    by apply lookup_replicate_2.
Qed.

(** Every hit of the matrix comes from a pair of equal class whose overlap
    reaches the threshold of its column. *)
Lemma match_correct_sound iou lcls dcls iouv correct d row t :
  match_correct iou lcls dcls iouv = Ok correct →
  correct !! d = Some row → row !! t = Some true →
  ∃ l c a, lcls !! l = Some c ∧ dcls !! d = Some c ∧
           iouv !! t = Some a ∧ Qle a (iou l d).
Proof.
  intros Hres Hrow Ht.
  destruct (match_correct_returns _ _ _ _ _ Hres) as (thr & Hthr & _).
  destruct (match_correct_rows iou lcls dcls iouv thr Hthr)
    as (correct' & Hc & Hlen & Hhit & Hmiss).
  rewrite Hres in Hc. injection Hc as <-.
  assert (d < length dcls) as Hd.
  { rewrite <- Hlen. by eapply lookup_lt_Some. }
  destruct (decide (d ∈ m_det <$>
              surviving (where_matches iou thr lcls dcls))) as [Hin|Hnot].
  - apply list_elem_of_fmap in Hin as (m & -> & Hm).
    rewrite (Hhit m Hm) in Hrow. injection Hrow as <-.
    unfold thresholds_met in Ht. rewrite list_lookup_fmap in Ht.
    destruct (iouv !! t) as [a|] eqn:Ha; [|done]. injection Ht as Ht.
    apply Qle_bool_iff in Ht.
    apply surviving_subseteq, elem_of_where_matches in Hm
      as (c & Hl & Hdc & _ & Hv).
    exists (m_label m), c, a. by rewrite <- Hv.
  - rewrite (Hmiss d Hd Hnot) in Hrow. injection Hrow as <-.
    by apply lookup_replicate in Ht as [? _].
Qed.

Lemma NoDup_bounded_length (l : list nat) (n : nat) :
  NoDup l → (∀ x, x ∈ l → x < n) → length l ≤ n.
Proof.
  intros Hnd Hlt. trans (length (seq 0 n)); [|by rewrite length_seq].
  apply submseteq_length, NoDup_submseteq; [done|].
  intros x Hx. apply elem_of_seq. specialize (Hlt x Hx). lia.
Qed.

(** At every threshold, the detections marked are no more than the labels. *)
Lemma match_correct_hits_bounded iou lcls dcls iouv correct t :
  match_correct iou lcls dcls iouv = Ok correct →
  length (true_positives correct t) ≤ length lcls.
Proof.
  intros Hres.
  destruct (match_correct_returns _ _ _ _ _ Hres) as (thr & Hthr & _).
  destruct (match_correct_rows iou lcls dcls iouv thr Hthr)
    as (correct' & Hc & Hlen & Hhit & Hmiss).
  rewrite Hres in Hc. injection Hc as <-.
  set (ms := surviving (where_matches iou thr lcls dcls)) in *.
  trans (length (m_det <$> ms)).
  - apply submseteq_length, NoDup_submseteq.
    + apply NoDup_filter, NoDup_seq.
    + intros d [Hd Hseq]%list_elem_of_filter.
      apply elem_of_seq in Hseq.
      destruct (decide (d ∈ m_det <$> ms)) as [|Hnot]; [done|].
      rewrite (Hmiss d) in Hd by (done || lia). cbn in Hd.
      by apply lookup_replicate in Hd as [? _].
  - rewrite length_fmap, <- (length_fmap m_label).
    apply NoDup_bounded_length; [apply surviving_NoDup_label|].
    intros l (m & -> & Hm)%list_elem_of_fmap.
    by apply surviving_in_range in Hm as [? _].
Qed.

Lemma where_matches_ext iou iou' thr lcls dcls :
  (∀ i j, iou i j = iou' i j) →
  where_matches iou thr lcls dcls = where_matches iou' thr lcls dcls.
Proof.
  intros Hext. unfold where_matches. f_equal.
  apply imap_ext. intros i lc _. f_equal.
  apply imap_ext. intros j dc _. by rewrite Hext.
Qed.

Lemma match_correct_ext iou iou' lcls dcls iouv :
  (∀ i j, iou i j = iou' i j) →
  match_correct iou lcls dcls iouv = match_correct iou' lcls dcls iouv.
Proof.
  intros Hext. unfold match_correct.
  destruct (py_index iouv 0) as [thr|e]; [|done]. rewrite !bind_Ok_l.
  by rewrite (where_matches_ext iou iou' thr lcls dcls Hext).
Qed.

Lemma where_matches_no_detection iou thr lcls :
  where_matches iou thr lcls [] = [].
Proof.
  apply elem_of_nil_inv. intros m (c & _ & Hd & _)%elem_of_where_matches.
  done.
Qed.

Lemma where_matches_no_label iou thr dcls :
  where_matches iou thr [] dcls = [].
Proof. done. Qed.

Section MatcherMore.
Context `{Collaborators}.

(** X1.  Every hit of the matrix returned by [process_batch] is backed by
    a label: if row [d] is true at column [t], some label has the class of
    detection [d] and overlaps it with an IoU of at least [iouv[t]]. *)
Theorem process_batch_hits_justified (detections : Tensor)
    (labels : list Label) (iouv : list Q) (correct : BoolMatrix)
    (d : nat) (row : list bool) (t : nat) :
  process_batch detections labels iouv = Ok correct →
  correct !! d = Some row → row !! t = Some true →
  ∃ lab det a,
    lab ∈ labels ∧ detections !! d = Some det ∧ l_cls lab = d_cls det ∧
    iouv !! t = Some a ∧ Qle a (box_iou (l_box lab) (d_box det)).
Proof.
  intros Hres Hrow Ht.
  destruct (match_correct_sound _ _ _ _ _ _ _ _ Hres Hrow Ht)
    as (l & c & a & Hl & Hd & Ha & Hle).
  apply list_lookup_fmap_Some in Hl as (lab & -> & Hlab).
  apply list_lookup_fmap_Some in Hd as (det & Hc & Hdet).
  exists lab, det, a. split_and!; [|done..|].
  - by eapply list_elem_of_lookup_2.
  - unfold box_iou_at in Hle. by rewrite Hlab, Hdet in Hle.
Qed.

(** X2.  At every threshold column the detections [process_batch] marks
    are no more than the labels (and no more than the detections). *)
Theorem process_batch_hits_bounded (detections : Tensor)
    (labels : list Label) (iouv : list Q) (correct : BoolMatrix) (t : nat) :
  process_batch detections labels iouv = Ok correct →
  length (true_positives correct t) ≤ length labels ∧
  length (true_positives correct t) ≤ length detections.
Proof.
  intros Hres. split.
  - apply match_correct_hits_bounded with (t := t) in Hres.
    by rewrite length_fmap in Hres.
  - unfold true_positives.
    etrans; [apply length_filter|]. rewrite length_seq.
    destruct (process_batch_returns detections labels iouv) as (c & Hc & Hl).
    { intros ->. done. }
    rewrite Hres in Hc. injection Hc as <-. lia.
Qed.

(** X3.  [process_batch] reads only the boxes and the classes of the
    detections: two prediction tensors that agree on both get the same
    matrix, whatever their confidences and mask coefficients. *)
Theorem process_batch_ignores_confidence (detections detections' : Tensor)
    (labels : list Label) (iouv : list Q) :
  d_box <$> detections = d_box <$> detections' →
  d_cls <$> detections = d_cls <$> detections' →
  process_batch detections labels iouv = process_batch detections' labels iouv.
Proof.
  intros Hbox Hcls. unfold process_batch. rewrite Hcls.
  apply match_correct_ext. intros i j. unfold box_iou_at.
  destruct (labels !! i) as [lab|]; [|done].
  assert ((d_box <$> detections) !! j = (d_box <$> detections') !! j) as Hj
    by (by rewrite Hbox).
  rewrite !list_lookup_fmap in Hj.
  destruct (detections !! j), (detections' !! j); cbn in Hj; congruence.
Qed.

(** X4.  [process_batch] on degenerate inputs: no detection gives a
    matrix without rows, no label gives one all-false row per detection,
    and an empty threshold vector raises [IndexError] ([iouv[0]]). *)
Theorem process_batch_empty_inputs (detections : Tensor)
    (labels : list Label) (thr : Q) (iouv : list Q) :
  process_batch [] labels (thr :: iouv) = Ok [] ∧
  process_batch detections [] (thr :: iouv)
    = Ok (replicate (length detections)
            (replicate (S (length iouv)) false)) ∧
  process_batch detections labels [] = Raise IndexError.
Proof.
  split_and!; [| |done].
  - unfold process_batch. rewrite (match_correct_Ok _ _ _ _ thr) by done.
    cbn [fmap list_fmap]. by rewrite where_matches_no_detection.
  - unfold process_batch. rewrite (match_correct_Ok _ _ _ _ thr) by done.
    cbn [fmap list_fmap]. rewrite where_matches_no_label.
    by rewrite length_fmap.
Qed.

End MatcherMore.

Lemma scatter_row_lengths correct iouv matches :
  Forall (λ row, length row = length iouv) correct →
  Forall (λ row, length row = length iouv) (scatter correct iouv matches).
Proof.
  revert correct. induction matches as [|m matches IH]; intros correct Hc;
    [done|].
  rewrite scatter_cons. apply IH, Forall_insert; [done|].
  unfold thresholds_met. by rewrite length_fmap.
Qed.

Lemma match_correct_row_lengths iou lcls dcls iouv correct :
  match_correct iou lcls dcls iouv = Ok correct →
  length correct = length dcls ∧
  Forall (λ row, length row = length iouv) correct.
Proof.
  intros (thr & _ & ->)%match_correct_returns. unfold zeros. split.
  - by rewrite scatter_length, length_replicate.
  - apply scatter_row_lengths, Forall_replicate, length_replicate.
Qed.

Section ComputeStatMore.
Context `{Collaborators}.

(** X5.  The matrix [process_batch_masks] returns when prototypes and
    masks are present: its rows are monotone in the threshold index, it
    marks no more detections than there are labels, and every hit is
    backed by a label of the detection's class whose mask overlaps the
    predicted mask by at least the threshold of its column. *)
Theorem process_batch_masks_hits_justified (cfg : Config) (predn : Tensor)
    (proto : Proto) (gt : GtMasks) (labels : list Label)
    (correct : BoolMatrix) (pm : PredMasks) :
  process_batch_masks cfg predn (Some proto) (Some gt) labels
    = Ok (correct, Some pm) →
  Forall row_monotone correct ∧
  (∀ t, length (true_positives correct t) ≤ length labels) ∧
  (∀ d row t, correct !! d = Some row → row !! t = Some true →
     ∃ l lab det a,
       labels !! l = Some lab ∧ predn !! d = Some det ∧
       l_cls lab = d_cls det ∧ self_iouv !! t = Some a ∧
       Qle a (mask_iou (if plots cfg then gt else interpolate gt pm) pm l d)).
Proof.
  unfold process_batch_masks. intros (c & Hc & [= <- <-])%bind_Ok.
  split_and!.
  - eapply match_correct_monotone; [apply self_iouv_sorted|done].
  - intros t. apply match_correct_hits_bounded with (t := t) in Hc.
    by rewrite length_fmap in Hc.
  - intros d row t Hrow Ht.
    destruct (match_correct_sound _ _ _ _ _ _ _ _ Hc Hrow Ht)
      as (l & cl & a & Hl & Hd & Ha & Hle).
    apply list_lookup_fmap_Some in Hl as (lab & -> & Hlab).
    apply list_lookup_fmap_Some in Hd as (det & Hcl & Hdet).
    by exists l, lab, det, a.
Qed.

Lemma after_coercion_conf cfg pr :
  d_conf <$> after_coercion cfg pr = d_conf <$> pr.
Proof.
  unfold after_coercion, coerce_cls. destruct (single_cls cfg); [|done].
  by rewrite <- list_fmap_compose.
Qed.

Lemma compute_stat_proto cfg si predn targets gt_masks train_out st st' :
  compute_stat cfg si predn targets gt_masks train_out st = Ok st' →
  ∃ po pr, proto_of train_out si = Ok po ∧ heap st !! predn = Some pr.
Proof.
  intros Hcs. unfold compute_stat in Hcs.
  apply bind_Ok in Hcs as (po & Hpo & Hcs).
  apply bind_Ok in Hcs as (pr & Hpr%load_Ok & _). eauto.
Qed.

Lemma record_plots_stats cfg pr labelsn pm st :
  stats (record_plots cfg pr labelsn pm st) = stats st ∧
  heap (record_plots cfg pr labelsn pm st) = heap st.
Proof. unfold record_plots. destruct (plots cfg); [by destruct pm|done]. Qed.

Lemma coerced_state_stats cfg predn pr st :
  stats (coerced_state cfg predn pr st) = stats st.
Proof. unfold coerced_state. by destruct (single_cls cfg). Qed.

Lemma process_batch_masks_shape cfg predn po gt labels cm pm :
  process_batch_masks cfg predn po gt labels = Ok (cm, pm) →
  (length cm = length predn ∨ cm = []) ∧
  Forall (λ row, length row = 10) cm.
Proof.
  unfold process_batch_masks. destruct po as [proto|], gt as [g|]; try done.
  - intros (c & Hc & [= <- <-])%bind_Ok.
    apply match_correct_row_lengths in Hc as [Hl Hr].
    rewrite length_fmap in Hl. split; [by left|done].
  - intros [= <- <-]. split; [by right|constructor].
Qed.

(** X6.  Whenever [compute_stat] returns it has appended exactly one
    record, or none when the image has neither detections nor labels.  The
    record carries the confidences of the tensor and the classes of the
    image's labels, as many predicted classes and box-matrix rows as there
    are detections, a mask matrix with that many rows or none, and only
    rows of 10 columns. *)
Theorem compute_stat_record_shape (cfg : Config) (si predn : nat)
    (targets : list Target) (gt_masks : option GtMasks)
    (train_out : option (list Proto)) (st st' : State) (pr : Tensor) :
  heap st !! predn = Some pr →
  compute_stat cfg si predn targets gt_masks train_out st = Ok st' →
  ∃ new, stats st' = stats st ++ new ∧
    length new = (if decide (pr = [] ∧ labels_of si targets = [])
                  then 0 else 1) ∧
    Forall (λ rec,
      s_conf rec = d_conf <$> pr ∧
      s_tcls rec = t_cls <$> labels_of si targets ∧
      length (s_pcls rec) = length pr ∧
      length (s_boxes rec) = length pr ∧
      (length (s_masks rec) = length pr ∨ s_masks rec = []) ∧
      Forall (λ row, length row = 10) (s_boxes rec) ∧
      Forall (λ row, length row = 10) (s_masks rec)) new.
Proof.
  intros Hheap Hcs.
  destruct (compute_stat_proto _ _ _ _ _ _ _ _ Hcs) as (po & pr' & Hpo & Hpr').
  destruct (decide (pr = [])) as [->|Hne].
  { rewrite (compute_stat_empty _ _ _ _ _ _ po) in Hcs by done.
    injection Hcs as <-. case_decide as Hlab.
    - exists []. rewrite app_nil_r, decide_True by done. by split_and!.
    - eexists [_]. rewrite decide_False by (by intros [_ ?]).
      split_and!; [done..|]. apply Forall_singleton. cbn.
      split_and!; auto. }
  rewrite decide_False by (by intros [? _]).
  destruct (decide (labels_of si targets = [])) as [Hlab|Hlab].
  { rewrite (compute_stat_no_labels _ _ _ _ _ _ po _ pr) in Hcs by done.
    injection Hcs as <-. eexists [_]. split_and!.
    - unfold push_stat. cbn. by rewrite coerced_state_stats.
    - done.
    - apply Forall_singleton. cbn. unfold zeros.
      rewrite after_coercion_conf, Hlab, !length_fmap, after_coercion_length,
        !length_replicate.
      split_and!; auto; apply Forall_replicate, length_replicate. }
  rewrite (compute_stat_labels _ _ _ _ _ _ po _ pr) in Hcs by done.
  apply bind_Ok in Hcs as (cb & Hcb & Hcs).
  apply bind_Ok in Hcs as ([cm pm] & Hcm & Hcs). injection Hcs as <-.
  apply match_correct_row_lengths in Hcb as [Hbl Hbr].
  apply process_batch_masks_shape in Hcm as [Hml Hmr].
  rewrite length_fmap, after_coercion_length in Hbl.
  rewrite after_coercion_length in Hml.
  eexists [_]. split_and!.
  - unfold push_stat. cbn.
    by rewrite (proj1 (record_plots_stats _ _ _ _ _)), coerced_state_stats.
  - done.
  - apply Forall_singleton. cbn.
    rewrite after_coercion_conf, !length_fmap, after_coercion_length.
    by split_and!.
Qed.

(** X7.  Outside single-class mode [compute_stat] writes to no tensor
    at all, and the predicted classes it records are those of the tensor
    it was given. *)
Theorem compute_stat_multi_class_pure (cfg : Config) (si predn : nat)
    (targets : list Target) (gt_masks : option GtMasks)
    (train_out : option (list Proto)) (st st' : State) (pr : Tensor) :
  single_cls cfg = false → heap st !! predn = Some pr →
  compute_stat cfg si predn targets gt_masks train_out st = Ok st' →
  heap st' = heap st ∧
  ∀ rec, rec ∈ drop (length (stats st)) (stats st') →
         s_pcls rec = d_cls <$> pr.
Proof.
  intros Hsc Hheap Hcs.
  destruct (compute_stat_proto _ _ _ _ _ _ _ _ Hcs) as (po & pr' & Hpo & Hpr').
  assert (after_coercion cfg pr = pr) as Hac.
  { unfold after_coercion. by rewrite Hsc. }
  assert (coerced_state cfg predn pr st = st) as Hco.
  { unfold coerced_state. by rewrite Hsc. }
  destruct (decide (pr = [])) as [->|Hne].
  { rewrite (compute_stat_empty _ _ _ _ _ _ po) in Hcs by done.
    injection Hcs as <-. case_decide.
    - split; [done|]. rewrite drop_all. by intros rec ?%not_elem_of_nil.
    - split; [done|]. unfold push_stat. cbn. rewrite drop_app_length.
      by intros rec ->%list_elem_of_singleton. }
  destruct (decide (labels_of si targets = [])) as [Hlab|Hlab].
  { rewrite (compute_stat_no_labels _ _ _ _ _ _ po _ pr) in Hcs by done.
    injection Hcs as <-. rewrite Hac, Hco. split; [done|].
    unfold push_stat. cbn. rewrite drop_app_length.
    by intros rec ->%list_elem_of_singleton. }
  rewrite (compute_stat_labels _ _ _ _ _ _ po _ pr) in Hcs by done.
  apply bind_Ok in Hcs as (cb & Hcb & Hcs).
  apply bind_Ok in Hcs as ([cm pm] & Hcm & Hcs). injection Hcs as <-.
  rewrite Hac, Hco. unfold push_stat. cbn.
  destruct (record_plots_stats cfg pr
              (labelsn_of (labels_of si targets)) pm st) as [-> ->].
  split; [done|]. rewrite drop_app_length.
  by intros rec ->%list_elem_of_singleton.
Qed.

(** X8.  When exactly one of the prototype output and the ground-truth
    masks is present, [compute_stat] raises the assertion error only for
    an image that has both detections and labels; for an image without
    detections or without labels the mismatch goes unnoticed and
    [compute_stat] returns. *)
Theorem compute_stat_mask_mismatch (cfg : Config) (si predn : nat)
    (targets : list Target) (gt_masks : option GtMasks)
    (train_out : option (list Proto)) (po : option Proto)
    (st : State) (pr : Tensor) :
  heap st !! predn = Some pr → proto_of train_out si = Ok po →
  ¬ (is_Some po ↔ is_Some gt_masks) →
  (pr ≠ [] → labels_of si targets ≠ [] →
   compute_stat cfg si predn targets gt_masks train_out st
   = Raise AssertionError) ∧
  (pr = [] ∨ labels_of si targets = [] →
   ∃ st', compute_stat cfg si predn targets gt_masks train_out st = Ok st').
Proof.
  intros Hheap Hpo Hmis. split.
  - intros Hne Hlab.
    rewrite (compute_stat_labels _ _ _ _ _ _ po _ pr) by done.
    destruct (process_batch_returns (after_coercion cfg pr)
                (labelsn_of (labels_of si targets)) self_iouv)
      as (cb & -> & _); [done|].
    rewrite bind_Ok_l. unfold process_batch_masks, masks_of.
    destruct po as [proto|], gt_masks as [g|]; cbn; try done.
    all: exfalso; apply Hmis; split; intros [? ?]; simplify_eq; by eexists.
  - intros [->|Hlab].
    + rewrite (compute_stat_empty _ _ _ _ _ _ po) by done. eauto.
    + destruct (decide (pr = [])) as [->|Hne].
      * rewrite (compute_stat_empty _ _ _ _ _ _ po) by done. eauto.
      * rewrite (compute_stat_no_labels _ _ _ _ _ _ po _ pr) by done. eauto.
Qed.

End ComputeStatMore.


(** ** Sequencing in the error monad *)


Lemma mapM_Raise {A B} (f : A → result B) (e : exn) (l : list A) :
  (∀ x, x ∈ l → f x = Raise e ∨ ∃ y, f x = Ok y) →
  Exists (λ x, f x = Raise e) l → mapM f l = Raise e.
Proof.
  induction l as [|x l IH]; intros Hf Hex; [by apply Exists_nil in Hex|].
  cbn [mapM]. destruct (Hf x) as [->|[y Hy]]; [left|done|].
  rewrite Hy, bind_Ok_l. rewrite IH; [done|intros z Hz; apply Hf; by right|].
  apply Exists_cons in Hex as [Hx|Hex]; [congruence|done].
Qed.


Section ResultFiles.
Context `{Collaborators}.

Lemma txt_line_Ok save_conf shape d :
  d_coef d = [] →
  ∃ line, txt_line save_conf shape d = Ok line ∧
    length line = (if save_conf then 6 else 5) ∧
    head line = Some (inject_Z (d_cls d)) ∧
    (save_conf = true → last line = Some (d_conf d)).
Proof.
  intros Hc. unfold txt_line. rewrite Hc. eexists. split; [done|].
  by destruct save_conf.
Qed.

Lemma txt_line_Raise save_conf shape d :
  d_coef d ≠ [] → txt_line save_conf shape d = Raise RuntimeError.
Proof. unfold txt_line. by destruct (d_coef d). Qed.

(** X9.  [save_one_txt] needs rows of exactly six columns: when no row
    carries mask coefficients it appends one line per detection, in order,
    of 5 values (6 with [save_conf]) starting with the class and, with
    [save_conf], ending with the confidence; as soon as one row carries
    mask coefficients it raises [RuntimeError]. *)
Theorem save_one_txt_six_columns (predn : Tensor) (save_conf : bool)
    (shape : Q * Q) (file : string) (st : State) :
  (Forall (λ d, d_coef d = []) predn →
   ∃ lines,
     save_one_txt predn save_conf shape file st
       = Ok (set_txt (txt st ++ ((λ l, (file, l)) <$> lines)) st) ∧
     Forall2 (λ d line,
       length line = (if save_conf then 6 else 5) ∧
       head line = Some (inject_Z (d_cls d)) ∧
       (save_conf = true → last line = Some (d_conf d))) predn lines) ∧
  (Exists (λ d, d_coef d ≠ []) predn →
   save_one_txt predn save_conf shape file st = Raise RuntimeError).
Proof.
  split.
  - intros Hall. unfold save_one_txt.
    assert (∃ lines, mapM (txt_line save_conf shape) predn = Ok lines ∧
      Forall2 (λ d line,
        length line = (if save_conf then 6 else 5) ∧
        head line = Some (inject_Z (d_cls d)) ∧
        (save_conf = true → last line = Some (d_conf d))) predn lines)
      as (lines & -> & Hlines).
    { induction Hall as [|d predn Hd _ (lines & Hm & Hl)].
      - by exists [].
      - destruct (txt_line_Ok save_conf shape d Hd) as (line & Hline & Hp).
        exists (line :: lines). cbn [mapM]. rewrite Hline, Hm.
        split; [done|]. by constructor. }
    exists lines. by rewrite bind_Ok_l.
  - intros Hex. unfold save_one_txt.
    rewrite (mapM_Raise _ RuntimeError); [done| |].
    + intros d _. destruct (decide (d_coef d = [])) as [Hd|Hd].
      * right. destruct (txt_line_Ok save_conf shape d Hd) as (l & -> & _).
        eauto.
      * left. by apply txt_line_Raise.
    + eapply Exists_impl; [done|]. intros d. apply txt_line_Raise.
Qed.




End ResultFiles.

Section LoopMore.
Context `{Collaborators}.

Lemma compute_stat_appends cfg si predn targets gt_masks train_out st st' :
  compute_stat cfg si predn targets gt_masks train_out st = Ok st' →
  ∃ new, stats st' = stats st ++ new ∧ length new ≤ 1.
Proof.
  intros Hcs.
  destruct (compute_stat_proto _ _ _ _ _ _ _ _ Hcs) as (po & pr & Hpo & Hpr).
  destruct (decide (pr = [])) as [->|Hne].
  { rewrite (compute_stat_empty _ _ _ _ _ _ po) in Hcs by done.
    injection Hcs as <-. case_decide.
    - exists []. rewrite app_nil_r. split; [done|cbn; lia].
    - eexists [_]. split; [reflexivity|cbn; lia]. }
  destruct (decide (labels_of si targets = [])) as [Hlab|Hlab].
  { rewrite (compute_stat_no_labels _ _ _ _ _ _ po _ pr) in Hcs by done.
    injection Hcs as <-. eexists [_]. split; [|cbn; lia].
    unfold push_stat. cbn. by rewrite coerced_state_stats. }
  rewrite (compute_stat_labels _ _ _ _ _ _ po _ pr) in Hcs by done.
  apply bind_Ok in Hcs as (cb & Hcb & Hcs).
  apply bind_Ok in Hcs as ([cm pm] & Hcm & Hcs). injection Hcs as <-.
  eexists [_]. split; [|cbn; lia]. unfold push_stat. cbn.
  by rewrite (proj1 (record_plots_stats _ _ _ _ _)), coerced_state_stats.
Qed.

(** One pass of the loop body, as far as the counters go. *)
Lemma run_image_stats cfg save_txt save_conf save_json targets gt_masks
    train_out si pred stem shape st st' :
  run_image cfg save_txt save_conf save_json targets gt_masks
    train_out si pred stem shape st = Ok st' →
  seen st' = seen st + 1 ∧
  ∃ orig predn st2,
    heap st !! pred = Some orig ∧ heap st !! predn = None ∧
    compute_stat cfg si predn targets gt_masks train_out
      (store predn orig (set_seen (seen st + 1) st)) = Ok st2 ∧
    stats st' = stats st2.
Proof.
  intros Hrun. unfold run_image in Hrun.
  apply bind_Ok in Hrun as ([predn st1] & Hclone & Hrun).
  unfold clone in Hclone.
  apply bind_Ok in Hclone as (orig & Horig%load_Ok & [= <- <-]).
  cbn [heap set_seen] in Horig.
  apply bind_Ok in Hrun as (st2 & Hcs & Hrun).
  destruct (compute_stat_frame _ _ _ _ _ _ _ _ Hcs) as (_ & _ & _ & Hseen).
  apply bind_Ok in Hrun as (st3 & Htx & Hrun).
  assert (stats st3 = stats st2 ∧ seen st3 = seen st2) as [Hs3 Hn3].
  { destruct (save_txt && save_dir_exists cfg); [|by injection Htx as <-].
    apply bind_Ok in Htx as (t & _ & Htx).
    by apply save_one_txt_Ok in Htx as (lines & _ & ->). }
  assert (stats st' = stats st3 ∧ seen st' = seen st3) as [Hs' Hn'].
  { destruct (save_json && save_dir_exists cfg); [|by injection Hrun as <-].
    apply bind_Ok in Hrun as (t & _ & Hrun).
    by apply save_one_json_Ok in Hrun as (recs & _ & ->). }
  split; [by rewrite Hn', Hn3, Hseen|].
  exists orig, (fresh (dom (heap st))), st2. split_and!; [done| |done|congruence].
  apply not_elem_of_dom, is_fresh.
Qed.

(** X12.  If the loop of [run] returns, [seen] has grown by the number
    of images of the batch, [paths] and [shapes] covered all of them, and
    the record buffer has only grown, by at most one record per image. *)
Theorem run_images_counters (cfg : Config)
    (save_txt save_conf save_json : bool) (targets : list Target)
    (gt_masks : option GtMasks) (train_out : option (list Proto))
    (paths : list string) (shapes : list (Q * Q)) (out : list nat)
    (st st' : State) :
  run_images cfg save_txt save_conf save_json targets gt_masks train_out
    paths shapes out st = Ok st' →
  seen st' = seen st + length out ∧
  length out ≤ length paths ∧ length out ≤ length shapes ∧
  ∃ new, stats st' = stats st ++ new ∧ length new ≤ length out.
Proof.
  unfold run_images.
  assert (∀ ips st,
    foldl (run_images_step cfg save_txt save_conf save_json targets gt_masks
             train_out paths shapes) (Ok st) ips = Ok st' →
    seen st' = seen st + length ips ∧
    (∀ ip, ip ∈ ips → ip.1 < length paths ∧ ip.1 < length shapes) ∧
    ∃ new, stats st' = stats st ++ new ∧ length new ≤ length ips) as Hloop.
  { clear st. induction ips as [|ip ips IH]; intros st Hrun.
    { injection Hrun as <-. split; [cbn; lia|]. split.
      - by intros ip ?%not_elem_of_nil.
      - exists []. by rewrite app_nil_r. }
    cbn [foldl] in Hrun.
    destruct (run_images_step _ _ _ _ _ _ _ _ _ (Ok st) ip) as [st1|e] eqn:E;
      [|by rewrite run_images_raise in Hrun].
    unfold run_images_step in E. rewrite bind_Ok_l in E.
    apply bind_Ok in E as (stem & Hstem%py_index_Ok & E).
    apply bind_Ok in E as (shape & Hshape%py_index_Ok & E).
    apply run_image_stats in E
      as (Hseen & orig & predn & st2 & _ & _ & Hcs & Hst).
    apply compute_stat_appends in Hcs as (new1 & Hnew1 & Hlen1).
    cbn [stats store set_heap set_seen] in Hnew1.
    destruct (IH st1 Hrun) as (Hn & Hin & new & Hnew & Hlen).
    split_and!.
    - cbn [length]. lia.
    - intros ip' [->|Hip']%elem_of_cons; [|by apply Hin].
      split; by eapply lookup_lt_Some.
    - exists (new1 ++ new). rewrite Hnew, Hst, Hnew1, (assoc_L (++)).
      split; [done|]. rewrite length_app. cbn [length]. lia. }
  intros Hrun. destruct (Hloop _ _ Hrun) as (Hn & Hin & new & Hnew & Hlen).
  rewrite length_imap in Hn, Hlen. split_and!; [done| | |eauto].
  - destruct out as [|pred out] using rev_ind; [cbn; lia|].
    destruct (Hin (length out, pred)) as [Hp _].
    { rewrite imap_app. apply elem_of_app. right. cbn.
      rewrite Nat.add_0_r. left. }
    rewrite length_app. cbn in *. lia.
  - destruct out as [|pred out] using rev_ind; [cbn; lia|].
    destruct (Hin (length out, pred)) as [_ Hs].
    { rewrite imap_app. apply elem_of_app. right. cbn.
      rewrite Nat.add_0_r. left. }
    rewrite length_app. cbn in *. lia.
Qed.



End LoopMore.

Lemma mapM_Ok_inv {A B} (f : A → result B) (l : list A) (k : list B) :
  mapM f l = Ok k → Forall2 (λ x y, f x = Ok y) l k.
Proof.
  revert k. induction l as [|x l IH]; intros k Hm.
  { injection Hm as <-. constructor. }
  cbn [mapM] in Hm. apply bind_Ok in Hm as (y & Hy & Hm).
  apply bind_Ok in Hm as (k' & Hk' & [= <-]). constructor; auto.
Qed.

Lemma speeds_inv (dts : list Q) (n : nat) (t : list Q) :
  speeds dts n = Ok t →
  t = (λ x, (x / inject_Z (Z.of_nat n) * 1000)%Q) <$> dts ∧
  (dts ≠ [] → n ≠ 0).
Proof.
  intros Hs. destruct (decide (n = 0)) as [->|Hn].
  - destruct dts as [|x dts]; [|by rewrite speeds_zero in Hs].
    injection Hs as <-. done.
  - rewrite (speeds_Ok _ _ Hn) in Hs. by injection Hs as <-.
Qed.

Lemma any_concat_false (ms : list BoolMatrix) :
  Forall all_false ms → any (concat ms) = false.
Proof. intros Hf. by apply any_all_false, all_false_concat. Qed.

Section AfterInferMore.
Context `{Collaborators}.

Lemma print_metric_inv cfg nt k n ms rows :
  print_metric cfg nt k n ms = Ok rows →
  ∃ res, metric_mean_results ms = Ok res ∧
    rows !! 0 = Some (mkRow "all" n (Qsum nt) res) ∧
    if verbose cfg && bool_decide (1 < nc cfg) && bool_decide (k ≠ 0)
    then
      length rows = S (length (metric_ap_class_index ms)) ∧
      ∀ i c, metric_ap_class_index ms !! i = Some c →
        ∃ name ntc cres,
          (0 ≤ c)%Z ∧ names cfg !! Z.to_nat c = Some name ∧
          np_getitem nt c = Ok ntc ∧
          metric_class_result ms i = Ok cres ∧
          rows !! S i = Some (mkRow name n ntc cres)
    else rows = [mkRow "all" n (Qsum nt) res].
Proof.
  unfold print_metric. intros (res & Hres & Hp)%bind_Ok. exists res.
  split; [done|].
  destruct (verbose cfg && bool_decide (1 < nc cfg) && bool_decide (k ≠ 0)).
  - apply bind_Ok in Hp as (rs & Hrs & [= <-]).
    apply mapM_Ok_inv in Hrs. split_and!; [done| |].
    + cbn. f_equal. apply Forall2_length in Hrs.
      by rewrite length_imap in Hrs.
    + intros i c Hi.
      assert (imap pair (metric_ap_class_index ms) !! i = Some (i, c))
        as Hj by (by rewrite list_lookup_imap, Hi).
      destruct (Forall2_lookup_l _ _ _ _ _ Hrs Hj) as (row & Hri & Hrow).
      unfold print_class_row in Hrow.
      apply bind_Ok in Hrow as (name & Hname & Hrow).
      apply bind_Ok in Hrow as (ntc & Hntc & Hrow).
      apply bind_Ok in Hrow as (cres & Hcres & [= <-]).
      cbn [fst snd] in *.
      unfold names_getitem in Hname. case_decide as Hc; [|done].
      destruct (names cfg !! Z.to_nat c) eqn:E; [|done].
      injection Hname as <-. by exists s, ntc, cres.
  - by injection Hp as <-.
Qed.

(** X14.  [after_infer] on a run that recorded at least one image, saw at
    least one and has no hit in any recorded matrix keeps whatever metric
    the evaluator already holds: with [verbose] off and a metric whose
    mean results are [res], it returns the speeds, clears the record
    buffer and reports [res] again, with a label count of 0. *)
Theorem after_infer_keeps_stale_metric (cfg : Config) (st : State)
    (res : list Q) :
  stats st ≠ [] → seen st ≠ 0 →
  Forall (λ rec, all_false (s_masks rec) ∧ all_false (s_boxes rec))
         (stats st) →
  verbose cfg = false → metric_mean_results (metric st) = Ok res →
  ∃ st',
    after_infer cfg st
      = Ok ((λ x, (x / inject_Z (Z.of_nat (seen st)) * 1000)%Q) <$> dt st,
            st') ∧
    metric st' = metric st ∧ stats st' = [] ∧
    printed st' = printed st ++ [mkRow "all" (seen st) 0%Q res].
Proof.
  intros Hstats Hseen Hfalse Hverb Hres. unfold after_infer.
  destruct (stats st) as [|s0 ss] eqn:Hst; [done|].
  cbn [concat_stats]. rewrite bind_Ok_l.
  unfold aggregate. cbn [s_masks s_boxes].
  rewrite !any_concat_false.
  2,3: apply Forall_fmap; eapply Forall_impl; [done|]; by intros rec [? ?].
  cbn [orb]. rewrite bind_Ok_l. cbn [seen set_stats set_metric].
  unfold print_metric. rewrite Hres, bind_Ok_l, Hverb. cbn [andb].
  rewrite bind_Ok_l. cbn [dt seen set_printed set_stats set_metric].
  rewrite (speeds_Ok _ _ Hseen), bind_Ok_l. eexists. split; [done|].
  by cbn.
Qed.

(** X15.  Whenever [after_infer] returns: there was at least one
    record, [seen] was not zero (given a timing bucket), the speeds are
    the buckets divided by [seen] times 1000, the record buffer is empty,
    [seen], [dt], the tensors and the result files are untouched, at least
    one report line was printed, and the metric is the old one when no
    matrix had a hit and otherwise the update by the aggregation of the
    records' columns concatenated in recording order. *)
Theorem after_infer_postconditions (cfg : Config) (st st' : State)
    (t : list Q) :
  after_infer cfg st = Ok (t, st') →
  stats st ≠ [] ∧ (dt st ≠ [] → seen st ≠ 0) ∧
  t = (λ x, (x / inject_Z (Z.of_nat (seen st)) * 1000)%Q) <$> dt st ∧
  stats st' = [] ∧ seen st' = seen st ∧ dt st' = dt st ∧
  heap st' = heap st ∧ jdict st' = jdict st ∧ txt st' = txt st ∧
  length (printed st) < length (printed st') ∧
  metric st' =
    (if any (concat (s_masks <$> stats st))
        || any (concat (s_boxes <$> stats st))
     then if mask cfg
          then BoxMaskMetrics
                 (update (ap_per_class_box_and_mask
                    (concat (s_masks <$> stats st))
                    (concat (s_boxes <$> stats st))
                    (concat (s_conf <$> stats st))
                    (concat (s_pcls <$> stats st))
                    (concat (s_tcls <$> stats st))).1)
                 (update (ap_per_class_box_and_mask
                    (concat (s_masks <$> stats st))
                    (concat (s_boxes <$> stats st))
                    (concat (s_conf <$> stats st))
                    (concat (s_pcls <$> stats st))
                    (concat (s_tcls <$> stats st))).2)
          else BoxMetric
                 (update (ap_per_class
                    (concat (s_boxes <$> stats st))
                    (concat (s_conf <$> stats st))
                    (concat (s_pcls <$> stats st))
                    (concat (s_tcls <$> stats st))))
     else metric st).
Proof.
  unfold after_infer. intros (cols & Hcols & Hrun)%bind_Ok.
  destruct (stats st) as [|s0 ss] eqn:Hst; [done|].
  injection Hcols as <-.
  apply bind_Ok in Hrun as ([ms nt] & Hagg & Hrun).
  apply bind_Ok in Hrun as (rows & Hrows & Hrun).
  apply bind_Ok in Hrun as (t' & Ht & [= <- <-]).
  cbn [dt seen set_printed set_stats set_metric] in Ht.
  apply speeds_inv in Ht as [-> Hn].
  apply print_metric_inv in Hrows as (res & _ & Hhead & _).
  apply lookup_lt_Some in Hhead.
  split_and!; try done.
  - cbn. rewrite length_app. lia.
  - cbn [metric set_printed set_stats set_metric].
    unfold aggregate in Hagg. cbn [s_masks s_boxes s_conf s_pcls s_tcls] in Hagg.
    destruct (any _ || any _); [|by injection Hagg as <- _].
    apply bind_Ok in Hagg as (nt' & _ & [= <- _]). done.
Qed.

End AfterInferMore.

(** ** More on Metric *)

Lemma get_maps_step_Raise m e ic :
  get_maps_step m (Raise e) ic = Raise e.
Proof. done. Qed.

Lemma get_maps_prefix_returns (m : Metric) (nc : nat) (cs : list Z) :
  (length cs ≤ length (ap m) ∧
   Forall (λ c, (- Z.of_nat nc ≤ c < Z.of_nat nc)%Z) cs →
   ∃ maps,
     foldl (get_maps_step m) (Ok (replicate nc (map_ m))) (imap pair cs)
     = Ok maps ∧ length maps = nc) ∧
  (¬ (length cs ≤ length (ap m) ∧
      Forall (λ c, (- Z.of_nat nc ≤ c < Z.of_nat nc)%Z) cs) →
   foldl (get_maps_step m) (Ok (replicate nc (map_ m))) (imap pair cs)
   = Raise IndexError).
Proof.
  induction cs as [|c cs [IHok IHerr]] using rev_ind.
  { split.
    - intros _. eexists. split; [done|]. apply length_replicate.
    - intros []. split; [cbn; lia|constructor]. }
  rewrite imap_app, foldl_app, length_app, Forall_app, Forall_singleton.
  cbn [imap foldl length]. rewrite Nat.add_0_r.
  destruct (decide (length cs ≤ length (ap m) ∧
              Forall (λ c, (- Z.of_nat nc ≤ c < Z.of_nat nc)%Z) cs))
    as [Hcs|Hcs].
  2:{ rewrite (IHerr Hcs), get_maps_step_Raise. split; [|done].
      intros [Hl [Hf _]]. destruct Hcs. split; [lia|done]. }
  destruct (IHok Hcs) as (maps & -> & Hlen).
  unfold get_maps_step, py_index, np_setitem. cbn [fst snd]. rewrite bind_Ok_l.
  rewrite Hlen.
  destruct (ap m !! length cs) as [v|] eqn:Hv.
  - apply lookup_lt_Some in Hv as Hlt. rewrite bind_Ok_l.
    destruct (decide (0 ≤ c < Z.of_nat nc)%Z) as [Hc|Hc].
    { split; [|intros []; split; [lia|split; [tauto|lia]]].
      intros _. eexists. split; [done|]. by rewrite length_insert. }
    destruct (decide (- Z.of_nat nc ≤ c < 0)%Z) as [Hc'|Hc'].
    { split; [|intros []; split; [lia|split; [tauto|lia]]].
      intros _. eexists. split; [done|]. by rewrite length_insert. }
    split; [|done]. intros (_ & _ & ?). lia.
  - apply lookup_ge_None in Hv. split; [|done]. intros [? _]. lia.
Qed.

(** X16.  [Metric.get_maps] returns exactly when the AP matrix has a
    row for every entry of [ap_class_index] and every listed class is a
    valid numpy index of an array of length [nc] (from [-nc] to [nc-1]);
    the array it returns has length [nc], and the only exception it
    raises is [IndexError]. *)
Theorem get_maps_returns_iff (m : Metric) (nc : nat) :
  ((∃ maps, get_maps m nc = Ok maps) ↔
   length (ap_class_index m) ≤ length (all_ap m) ∧
   Forall (λ c, (- Z.of_nat nc ≤ c < Z.of_nat nc)%Z) (ap_class_index m)) ∧
  (∀ maps, get_maps m nc = Ok maps → length maps = nc) ∧
  (∀ e, get_maps m nc = Raise e → e = IndexError).
Proof.
  destruct (get_maps_prefix_returns m nc (ap_class_index m)) as [Hok Herr].
  rewrite ap_length in Hok, Herr. unfold get_maps.
  destruct (decide (length (ap_class_index m) ≤ length (all_ap m) ∧
              Forall (λ c, (- Z.of_nat nc ≤ c < Z.of_nat nc)%Z)
                     (ap_class_index m))) as [Hc|Hc].
  - destruct (Hok Hc) as (maps & Hmaps & Hlen). rewrite Hmaps.
    split_and!; [split; eauto| |done]. by intros ? [= <-].
  - rewrite (Herr Hc). split_and!; [|done|by intros ? [= <-]].
    split; [by intros [? ?]|done].
Qed.

(** *** Target counts *)

Lemma Qsum_inject (l : list nat) :
  (Qsum ((λ k, inject_Z (Z.of_nat k)) <$> l)
   == inject_Z (Z.of_nat (sum_list l)))%Q.
Proof.
  induction l as [|k l IH]; cbn; [done|].
  by rewrite IH, Nat2Z.inj_add, inject_Z_plus.
Qed.

Lemma count_cons_seq (y : Z) (x : list Z) (n : nat) :
  (0 ≤ y < Z.of_nat n)%Z →
  sum_list ((λ c, length (filter (λ z, z = Z.of_nat c) (y :: x))) <$> seq 0 n)
  = S (sum_list ((λ c, length (filter (λ z, z = Z.of_nat c) x)) <$> seq 0 n)).
Proof.
  intros Hy.
  assert (∀ j,
    sum_list ((λ c, length (filter (λ z, z = Z.of_nat c) (y :: x)))
                <$> seq j n)
    = (if decide (Z.of_nat j ≤ y < Z.of_nat (j + n))%Z then 1 else 0)
      + sum_list ((λ c, length (filter (λ z, z = Z.of_nat c) x))
                    <$> seq j n)) as Hgen.
  { clear Hy. induction n as [|n IH]; intros j.
    { cbn. by rewrite decide_False by lia. }
    cbn [seq fmap list_fmap sum_list]. rewrite (IH (S j)).
    rewrite filter_cons.
    repeat case_decide; cbn [length]; unfold id; lia. }
  rewrite (Hgen 0). by rewrite decide_True by lia.
Qed.

Lemma count_all (x : list Z) (n : nat) :
  Forall (λ c, (0 ≤ c < Z.of_nat n)%Z) x →
  sum_list ((λ c, length (filter (λ z, z = Z.of_nat c) x)) <$> seq 0 n)
  = length x.
Proof.
  induction 1 as [|y x Hy _ IH].
  - induction (seq 0 n) as [|c l IHl]; [done|].
    cbn [fmap list_fmap sum_list]. rewrite IHl. done.
  - rewrite count_cons_seq by done. by rewrite IH.
Qed.

Lemma bincount_bound (x : list Z) (minlength : nat) :
  Forall (λ c, (0 ≤ c)%Z) x →
  minlength ≤ foldr (λ c n, max (S (Z.to_nat c)) n) minlength x ∧
  Forall (λ c, (0 ≤ c <
            Z.of_nat (foldr (λ c n, max (S (Z.to_nat c)) n) minlength x))%Z) x.
Proof.
  induction 1 as [|y x Hy _ [IHm IHf]]; cbn [foldr]; [by split|].
  split; [lia|]. constructor; [lia|].
  eapply Forall_impl; [done|]. intros c. cbn. lia.
Qed.

(** What [np.bincount] returns: one count per class index, at least
    [minlength] of them, adding up to the number of entries; a negative
    entry is a [ValueError]. *)
Lemma np_bincount_counts (x : list Z) (minlength : nat) :
  (Forall (λ c, (0 ≤ c)%Z) x →
   ∃ nt, np_bincount x minlength = Ok nt ∧ minlength ≤ length nt ∧
     (Qsum nt == inject_Z (Z.of_nat (length x)))%Q ∧
     ∀ c, c < length nt →
       nt !! c = Some (inject_Z (Z.of_nat
                   (length (filter (λ y, y = Z.of_nat c) x))))) ∧
  (Exists (λ c, (c < 0)%Z) x → np_bincount x minlength = Raise ValueError).
Proof.
  unfold np_bincount. split.
  - intros Hx. rewrite decide_True by done.
    destruct (bincount_bound x minlength Hx) as [Hmin Hall].
    set (n := foldr (λ c n, max (S (Z.to_nat c)) n) minlength x) in *.
    eexists. split; [done|]. rewrite length_fmap, length_seq. split_and!.
    + done.
    + trans (Qsum ((λ k, inject_Z (Z.of_nat k)) <$>
                ((λ c, length (filter (λ y, y = Z.of_nat c) x)) <$> seq 0 n))).
      { rewrite <- list_fmap_compose. reflexivity. }
      by rewrite Qsum_inject, count_all.
    + intros c Hc. rewrite list_lookup_fmap, lookup_seq_lt by done. done.
  - intros Hex. rewrite decide_False; [done|].
    intros Hall. apply Exists_exists in Hex as (c & Hc & Hneg).
    rewrite Forall_forall in Hall. specialize (Hall c Hc). cbn in Hall. lia.
Qed.

Section PrintMore.
Context `{Collaborators}.

(** X19.  Whenever [print_metric] returns, its first row is the line
    "all" with the total of [nt] and the mean results.  When [verbose] is
    on, [nc > 1] and the [stats] list it is given is not empty, that line
    is followed by one row per entry of [ap_class_index] and nothing else:
    the row of entry [i], class [c], carries [names[c]] (so [c] is a key
    of [names]), [nt[c]] and [class_result(i)].  Otherwise the line "all"
    is all it prints. *)
Theorem print_metric_rows (cfg : Config) (nt : list Q) (n_stats n : nat)
    (ms : MetricState) (rows : list ReportRow) :
  print_metric cfg nt n_stats n ms = Ok rows →
  ∃ res, metric_mean_results ms = Ok res ∧
    rows !! 0 = Some (mkRow "all" n (Qsum nt) res) ∧
    if verbose cfg && bool_decide (1 < nc cfg) && bool_decide (n_stats ≠ 0)
    then
      length rows = S (length (metric_ap_class_index ms)) ∧
      ∀ i c, metric_ap_class_index ms !! i = Some c →
        ∃ name ntc cres,
          (0 ≤ c)%Z ∧ names cfg !! Z.to_nat c = Some name ∧
          np_getitem nt c = Ok ntc ∧
          metric_class_result ms i = Ok cres ∧
          rows !! S i = Some (mkRow name n ntc cres)
    else rows = [mkRow "all" n (Qsum nt) res].
Proof. apply print_metric_inv. Qed.

End PrintMore.

Lemma np_bincount_Ok_inv (x : list Z) (minlength : nat) (nt : list Q) :
  np_bincount x minlength = Ok nt →
  (Qsum nt == inject_Z (Z.of_nat (length x)))%Q.
Proof.
  intros Hnt. destruct (decide (Forall (λ c, (0 ≤ c)%Z) x)) as [Hx|Hx].
  - destruct (proj1 (np_bincount_counts x minlength) Hx)
      as (nt' & Hnt' & _ & Hsum & _).
    rewrite Hnt in Hnt'. by injection Hnt' as <-.
  - unfold np_bincount in Hnt. by rewrite decide_False in Hnt.
Qed.

Section ReportMore.
Context `{Collaborators}.

(** X18.  The label count of the report line "all" that [after_infer]
    prints: the total number of recorded target classes when some matrix
    had a hit, and 0 otherwise, whatever the number of labels. *)
Theorem after_infer_report_labels (cfg : Config) (st st' : State)
    (t : list Q) :
  after_infer cfg st = Ok (t, st') →
  ∃ row, printed st' !! length (printed st) = Some row ∧
    row_name row = "all" ∧ row_seen row = seen st ∧
    (row_labels row ==
       if any (concat (s_masks <$> stats st))
          || any (concat (s_boxes <$> stats st))
       then inject_Z (Z.of_nat (length (concat (s_tcls <$> stats st))))
       else 0)%Q.
Proof.
  unfold after_infer. intros (cols & Hcols & Hrun)%bind_Ok.
  destruct (stats st) as [|s0 ss] eqn:Hst; [done|].
  injection Hcols as <-.
  apply bind_Ok in Hrun as ([ms nt] & Hagg & Hrun).
  apply bind_Ok in Hrun as (rows & Hrows & Hrun).
  apply bind_Ok in Hrun as (t' & _ & [= <- <-]).
  apply print_metric_inv in Hrows as (res & _ & Hhead & _).
  destruct rows as [|row rows]; [done|]. injection Hhead as ->.
  eexists. split.
  { cbn [printed set_printed set_stats set_metric].
    by rewrite list_lookup_middle. }
  cbn [row_name row_seen row_labels seen set_stats set_metric].
  split_and!; [done..|].
  unfold aggregate in Hagg. cbn [s_masks s_boxes s_tcls] in Hagg.
  destruct (any _ || any _).
  - apply bind_Ok in Hagg as (nt' & Hnt & [= _ <-]).
    by apply np_bincount_Ok_inv in Hnt.
  - injection Hagg as _ <-. cbn. reflexivity.
Qed.

(** X11.  Over the whole loop of [run]: if it returns, every prediction
    tensor of the batch, like every tensor alive before the loop, holds
    the rows it held before. *)
Theorem run_images_keep_live_tensors (cfg : Config)
    (save_txt save_conf save_json : bool) (targets : list Target)
    (gt_masks : option GtMasks) (train_out : option (list Proto))
    (paths : list string) (shapes : list (Q * Q)) (out : list nat)
    (st st' : State) :
  (∀ pred, pred ∈ out → is_Some (heap st !! pred)) →
  run_images cfg save_txt save_conf save_json targets gt_masks train_out
    paths shapes out st = Ok st' →
  (∀ pred, pred ∈ out → heap st' !! pred = heap st !! pred) ∧
  (∀ l t, heap st !! l = Some t → heap st' !! l = Some t).
Proof.
  intros Hout Hrun.
  pose proof (run_images_keep_predictions _ _ _ _ _ _ _ _ _ _ _ _ Hout Hrun)
    as Hkeep.
  split; [|done]. intros pred [t Ht]%Hout. by rewrite Ht, (Hkeep _ _ Ht).
Qed.

End ReportMore.

(** ** Witnesses of the further properties *)

(** X1, witness. *)
Lemma process_batch_hits_justified_witness :
  ex_correct !! 0 = Some [true; true; false; false; false; false; false;
                          false; false; false] ∧
  ∃ lab det a,
    lab ∈ [ex_label] ∧ ex_detections !! 0 = Some det ∧
    l_cls lab = d_cls det ∧ self_iouv !! 1 = Some a ∧
    Qle a (box_iou_spec (l_box lab) (d_box det)).
Proof.
  split; [reflexivity|].
  apply (process_batch_hits_justified (H := box_only) ex_detections
           [ex_label] self_iouv ex_correct 0
           [true; true; false; false; false; false; false; false; false;
            false] 1).
  - vm_compute. reflexivity.
  - reflexivity.
  - reflexivity.
Defined.

(** X2, witness. *)
Lemma process_batch_hits_bounded_witness :
  process_batch (H := box_only) ex_detections [ex_label] self_iouv
    = Ok ex_correct ∧
  length (true_positives ex_correct 0) ≤ length [ex_label].
Proof.
  assert (process_batch (H := box_only) ex_detections [ex_label] self_iouv
          = Ok ex_correct) as Hrun by (vm_compute; reflexivity).
  split; [exact Hrun|].
  apply (process_batch_hits_bounded (H := box_only) ex_detections
           [ex_label] self_iouv ex_correct 0 Hrun).
Defined.

(** X3, witness. *)
Lemma process_batch_ignores_confidence_witness :
  d_box <$> ex_detections = d_box <$> ex_detections_faint ∧
  process_batch (H := box_only) ex_detections [ex_label] self_iouv
  = process_batch (H := box_only) ex_detections_faint [ex_label] self_iouv.
Proof.
  split; [reflexivity|].
  apply (process_batch_ignores_confidence (H := box_only)); reflexivity.
Defined.

(** X5, witness. *)
Lemma process_batch_masks_hits_justified_witness :
  process_batch_masks (H := mask_stub) ex_config ex_detections
    (Some tt) (Some tt) [ex_label] = Ok (ex_correct_masks, Some tt) ∧
  Forall row_monotone ex_correct_masks.
Proof.
  assert (process_batch_masks (H := mask_stub) ex_config ex_detections
            (Some tt) (Some tt) [ex_label] = Ok (ex_correct_masks, Some tt))
    as Hrun by (vm_compute; reflexivity).
  split; [exact Hrun|].
  apply (process_batch_masks_hits_justified (H := mask_stub) ex_config
           ex_detections tt tt [ex_label] ex_correct_masks tt Hrun).
Defined.

(** X6, witness. *)
Lemma compute_stat_record_shape_witness :
  heap ex_state !! 0 = Some ex_pred ∧
  ∃ st' new,
    compute_stat (H := box_only) ex_config 0 0 ex_targets None None ex_state
      = Ok st' ∧
    stats st' = stats ex_state ++ new ∧ length new = 1.
Proof.
  split; [reflexivity|].
  assert (returns (compute_stat (H := box_only) ex_config 0 0 ex_targets
                     None None ex_state) = true) as Hr
    by (vm_compute; reflexivity).
  destruct (compute_stat (H := box_only) ex_config 0 0 ex_targets None None
              ex_state) as [st'|e] eqn:E; [|discriminate Hr].
  destruct (compute_stat_record_shape (H := box_only) ex_config 0 0
              ex_targets None None ex_state st' ex_pred eq_refl E)
    as (new & Hnew & Hlen & _).
  exists st', new. split_and!; [reflexivity|exact Hnew|exact Hlen].
Defined.

(** X7, witness. *)
Lemma compute_stat_multi_class_pure_witness :
  single_cls ex_config_multi = false ∧ heap ex_state !! 0 = Some ex_pred ∧
  ∃ st',
    compute_stat (H := box_only) ex_config_multi 0 0 ex_targets None None
      ex_state = Ok st' ∧
    heap st' = heap ex_state.
Proof.
  split; [reflexivity|]. split; [reflexivity|].
  assert (returns (compute_stat (H := box_only) ex_config_multi 0 0
                     ex_targets None None ex_state) = true) as Hr
    by (vm_compute; reflexivity).
  destruct (compute_stat (H := box_only) ex_config_multi 0 0 ex_targets None
              None ex_state) as [st'|e] eqn:E; [|discriminate Hr].
  exists st'. split; [reflexivity|].
  apply (compute_stat_multi_class_pure (H := box_only) ex_config_multi 0 0
           ex_targets None None ex_state st' ex_pred eq_refl eq_refl E).
Defined.

(** X8, witness: ground-truth masks without a prototype output. *)
Lemma compute_stat_mask_mismatch_witness :
  heap ex_state_masks !! 0 = Some ex_pred ∧
  compute_stat (H := mask_stub) ex_config 0 0 ex_targets (Some tt) None
    ex_state_masks = Raise AssertionError.
Proof.
  split; [reflexivity|].
  apply (proj1 (compute_stat_mask_mismatch (H := mask_stub) ex_config 0 0
                  ex_targets (Some tt) None None ex_state_masks ex_pred
                  eq_refl eq_refl
                  (λ Hiff, is_Some_None (proj2 Hiff (mk_is_Some _ _ eq_refl))))).
  - discriminate.
  - discriminate.
Defined.

(** X9, witness. *)
Lemma save_one_txt_six_columns_witness :
  Forall (λ d, d_coef d = []) ex_pred ∧
  ∃ lines,
    save_one_txt (H := box_only) ex_pred true (100, 100)%Q "im0" ex_state
    = Ok (set_txt (H := box_only)
            (txt ex_state ++ ((λ l, ("im0", l)) <$> lines)) ex_state) ∧
    length lines = 2.
Proof.
  assert (Forall (λ d, d_coef d = []) ex_pred) as Hall
    by (repeat constructor).
  split; [exact Hall|].
  destruct (proj1 (save_one_txt_six_columns (H := box_only) ex_pred true
                     (100, 100)%Q "im0" ex_state) Hall)
    as (lines & Hrun & Hlines).
  exists lines. split; [exact Hrun|].
  symmetry. exact (Forall2_length _ _ _ Hlines).
Defined.


(** X11, witness. *)
Lemma run_images_keep_live_tensors_witness :
  (∀ pred, pred ∈ [0] → is_Some (heap ex_state !! pred)) ∧
  ∃ st',
    run_images (H := box_only) ex_config true true true ex_targets None None
      ["im0"] [(100, 100)%Q] [0] ex_state = Ok st' ∧
    heap st' !! 0 = Some ex_pred.
Proof.
  assert (∀ pred, pred ∈ [0] → is_Some (heap ex_state !! pred)) as Hlive.
  { intros pred ->%list_elem_of_singleton. by eexists. }
  split; [exact Hlive|].
  assert (returns (run_images (H := box_only) ex_config true true true
                     ex_targets None None ["im0"] [(100, 100)%Q] [0]
                     ex_state) = true) as Hr
    by (vm_compute; reflexivity).
  destruct (run_images (H := box_only) ex_config true true true ex_targets
              None None ["im0"] [(100, 100)%Q] [0] ex_state)
    as [st'|e] eqn:E; [|discriminate Hr].
  exists st'. split; [reflexivity|].
  apply (proj2 (run_images_keep_live_tensors (H := box_only) ex_config true
                  true true ex_targets None None ["im0"] [(100, 100)%Q] [0]
                  ex_state st' Hlive E)).
  reflexivity.
Defined.

(** X12, witness. *)
Lemma run_images_counters_witness :
  ∃ st',
    run_images (H := box_only) ex_config true true true ex_targets None None
      ["im0"] [(100, 100)%Q] [0] ex_state = Ok st' ∧
    seen st' = seen ex_state + 1.
Proof.
  assert (returns (run_images (H := box_only) ex_config true true true
                     ex_targets None None ["im0"] [(100, 100)%Q] [0]
                     ex_state) = true) as Hr
    by (vm_compute; reflexivity).
  destruct (run_images (H := box_only) ex_config true true true ex_targets
              None None ["im0"] [(100, 100)%Q] [0] ex_state)
    as [st'|e] eqn:E; [|discriminate Hr].
  exists st'. split; [reflexivity|].
  apply (run_images_counters (H := box_only) ex_config true true true
           ex_targets None None ["im0"] [(100, 100)%Q] [0] ex_state st' E).
Defined.


(** X14, witness. *)
Lemma after_infer_keeps_stale_metric_witness :
  metric_mean_results (metric ex_state_stale)
    = Ok [15 # 20; 15 # 20; 140 # 200; 20000 # 40000]%Q ∧
  ∃ t st', after_infer (H := box_only) ex_config ex_state_stale = Ok (t, st') ∧
           metric st' = BoxMetric ex_metric.
Proof.
  split; [vm_compute; reflexivity|].
  destruct (after_infer_keeps_stale_metric (H := box_only) ex_config
              ex_state_stale [15 # 20; 15 # 20; 140 # 200; 20000 # 40000]%Q)
    as (st' & Hrun & Hm & _).
  - discriminate.
  - discriminate.
  - repeat constructor.
  - reflexivity.
  - vm_compute. reflexivity.
  - eexists _, st'. split; [exact Hrun|exact Hm].
Defined.

(** X15, witness. *)
Lemma after_infer_postconditions_witness :
  ∃ t st', after_infer (H := box_only) ex_config ex_state_no_tp = Ok (t, st') ∧
           stats st' = [] ∧ seen st' = 1.
Proof.
  assert (returns (after_infer (H := box_only) ex_config ex_state_no_tp)
          = true) as Hr by (vm_compute; reflexivity).
  destruct (after_infer (H := box_only) ex_config ex_state_no_tp)
    as [[t st']|e] eqn:E; [|discriminate Hr].
  destruct (after_infer_postconditions (H := box_only) ex_config
              ex_state_no_tp st' t E)
    as (_ & _ & _ & Hstats & Hseen & _).
  exists t, st'. split_and!; [reflexivity|exact Hstats|exact Hseen].
Defined.

(** X16, witness. *)
Lemma get_maps_returns_iff_witness :
  length (ap_class_index ex_metric) ≤ length (all_ap ex_metric) ∧
  ∃ maps, get_maps ex_metric 3 = Ok maps.
Proof.
  split; [cbn; lia|].
  apply (proj1 (get_maps_returns_iff ex_metric 3)). split.
  - cbn. lia.
  - repeat constructor; cbn; lia.
Defined.

(** X18, witness. *)
Lemma after_infer_report_labels_witness :
  ∃ t st' row,
    after_infer (H := box_only) ex_config ex_state_no_tp = Ok (t, st') ∧
    printed st' !! 0 = Some row ∧ (row_labels row == 0)%Q.
Proof.
  assert (returns (after_infer (H := box_only) ex_config ex_state_no_tp)
          = true) as Hr by (vm_compute; reflexivity).
  destruct (after_infer (H := box_only) ex_config ex_state_no_tp)
    as [[t st']|e] eqn:E; [|discriminate Hr].
  destruct (after_infer_report_labels (H := box_only) ex_config
              ex_state_no_tp st' t E) as (row & Hrow & _ & _ & Hlab).
  exists t, st', row. split_and!; [reflexivity|exact Hrow|exact Hlab].
Defined.

(** X19, witness: a verbose report over three classes, for a metric that
    holds the classes 0 and 2. *)
Lemma print_metric_rows_witness :
  ∃ rows,
    print_metric ex_config_verbose [3; 0; 5]%Q 4 7 (BoxMetric ex_metric)
      = Ok rows ∧
    length rows = 3 ∧
    ∃ ntc cres, rows !! 2 = Some (mkRow "car" 7 ntc cres).
Proof.
  assert (returns (print_metric ex_config_verbose [3; 0; 5]%Q 4 7
                     (BoxMetric ex_metric)) = true) as Hr
    by (vm_compute; reflexivity).
  destruct (print_metric ex_config_verbose [3; 0; 5]%Q 4 7
              (BoxMetric ex_metric)) as [rows|e] eqn:E; [|discriminate Hr].
  destruct (print_metric_rows ex_config_verbose [3; 0; 5]%Q 4 7
              (BoxMetric ex_metric) rows E) as (res & _ & _ & Hlen & Hrows).
  destruct (Hrows 1 2%Z eq_refl)
    as (name & ntc & cres & _ & Hname & _ & _ & Hrow).
  injection Hname as <-.
  exists rows. split_and!; [reflexivity|exact Hlen|].
  exists ntc, cres. exact Hrow.
Defined.

(** ** Metrics *)

(** X20.  [Metrics.get_maps] adds the box and the mask arrays entry by
    entry: for two metrics as [update] leaves them and a class count above
    every listed class, it returns an array of length [nc] whose entry
    [c] is the sum of the box entry and the mask entry; for a class listed
    by neither metric that is the box mean AP plus the mask mean AP. *)
Theorem metrics_get_maps_adds (b k : Metric) (nc : nat) :
  length (all_ap b) = length (ap_class_index b) →
  length (all_ap k) = length (ap_class_index k) →
  Forall (λ c, (0 ≤ c < Z.of_nat nc)%Z) (ap_class_index b) →
  Forall (λ c, (0 ≤ c < Z.of_nat nc)%Z) (ap_class_index k) →
  ∃ mb mk maps,
    get_maps b nc = Ok mb ∧ get_maps k nc = Ok mk ∧
    metric_get_maps (BoxMaskMetrics b k) nc = Ok maps ∧
    length maps = nc ∧
    (∀ c vb vk, mb !! c = Some vb → mk !! c = Some vk →
                maps !! c = Some (vb + vk)%Q) ∧
    (∀ c, c < nc → Z.of_nat c ∉ ap_class_index b →
          Z.of_nat c ∉ ap_class_index k →
          maps !! c = Some (map_ b + map_ k)%Q).
Proof.
  intros Hb Hk Hbr Hkr.
  destruct (get_maps_prefix b nc (ap_class_index b))
    as (mb & Hmb & Hlb & _ & Hbmiss); [by rewrite ap_length, Hb|done|].
  destruct (get_maps_prefix k nc (ap_class_index k))
    as (mk & Hmk & Hlk & _ & Hkmiss); [by rewrite ap_length, Hk|done|].
  exists mb, mk, (zip_with Qplus mb mk). split_and!; [done..| | | |].
  - unfold metric_get_maps, get_maps. by rewrite Hmb, Hmk.
  - rewrite length_zip_with. lia.
  - intros c vb vk Hvb Hvk. by rewrite lookup_zip_with, Hvb, Hvk.
  - intros c Hc Hnb Hnk.
    by rewrite lookup_zip_with, (Hbmiss c Hc Hnb), (Hkmiss c Hc Hnk).
Qed.

(** X20, witness. *)
Lemma metrics_get_maps_adds_witness :
  length (all_ap ex_metric) = length (ap_class_index ex_metric) ∧
  ∃ maps, metric_get_maps (BoxMaskMetrics ex_metric ex_metric) 3 = Ok maps ∧
          maps !! 1 = Some (map_ ex_metric + map_ ex_metric)%Q.
Proof.
  split; [reflexivity|].
  destruct (metrics_get_maps_adds ex_metric ex_metric 3)
    as (mb & mk & maps & _ & _ & Hmaps & _ & _ & Hmiss).
  - reflexivity.
  - reflexivity.
  - repeat constructor; cbn; lia.
  - repeat constructor; cbn; lia.
  - exists maps. split; [exact Hmaps|]. apply Hmiss.
    + lia.
    + intros Hin. repeat (apply elem_of_cons in Hin as [Hin|Hin]; [discriminate|]).
      by apply not_elem_of_nil in Hin.
    + intros Hin. repeat (apply elem_of_cons in Hin as [Hin|Hin]; [discriminate|]).
      by apply not_elem_of_nil in Hin.
Defined.

(** ** A whole run *)

Lemma zeros_all_false (n k : nat) : all_false (zeros n k).
Proof.
  unfold all_false, zeros. apply Forall_replicate, Forall_replicate. done.
Qed.

Section EndToEnd.
Context `{Collaborators}.

(** The loop body on an image with detections and without labels, when
    nothing is saved. *)
Lemma run_image_no_labels cfg save_conf targets si pred stem shape st pr :
  labels_of si targets = [] → heap st !! pred = Some pr → pr ≠ [] →
  ∃ st' rec,
    run_image cfg false save_conf false targets None None
      si pred stem shape st = Ok st' ∧
    stats st' = stats st ++ [rec] ∧
    all_false (s_masks rec) ∧ all_false (s_boxes rec) ∧
    seen st' = seen st + 1 ∧ metric st' = metric st ∧ dt st' = dt st ∧
    (∀ l t, heap st !! l = Some t → heap st' !! l = Some t).
Proof.
  intros Hlab Hheap Hne.
  destruct (clone_Ok pred (set_seen (seen st + 1) st) pr Hheap)
    as (predn & Hnp & Hfree & Hclone).
  cbn [heap set_seen] in Hfree.
  unfold run_image. rewrite Hclone, bind_Ok_l.
  rewrite (compute_stat_no_labels _ _ _ _ _ _ None _ pr); [|cbn|done..].
  2:{ by rewrite lookup_insert_eq. }
  rewrite bind_Ok_l. cbn [andb]. rewrite bind_Ok_l.
  eexists _, _. split; [done|]. unfold push_stat, coerced_state.
  destruct (single_cls cfg); cbn.
  all: split_and!; [done|apply zeros_all_false..|done|done|done|].
  all: intros l t Hl; assert (l ≠ predn) by (intros ->; congruence).
  all: by rewrite ?lookup_insert_ne.
Qed.

(** [after_infer] on records without a hit, for a metric never updated. *)
Lemma after_infer_no_hits_fresh cfg st h :
  stats st ≠ [] → seen st ≠ 0 →
  Forall (λ rec, all_false (s_masks rec) ∧ all_false (s_boxes rec))
         (stats st) →
  metric st = metric (initial_state cfg h) →
  ∃ t st', after_infer cfg st = Ok (t, st') ∧ metric st' = metric st.
Proof.
  intros Hstats Hseen Hfalse Hinit. unfold after_infer.
  destruct (stats st) as [|s0 ss] eqn:Hst; [done|].
  cbn [concat_stats]. rewrite bind_Ok_l.
  unfold aggregate. cbn [s_masks s_boxes].
  rewrite !any_concat_false.
  2,3: apply Forall_fmap; eapply Forall_impl; [done|]; by intros rec [? ?].
  cbn [orb]. rewrite bind_Ok_l. cbn [seen set_stats set_metric].
  rewrite Hinit, print_metric_initial, bind_Ok_l.
  cbn [dt seen set_printed set_stats set_metric].
  rewrite (speeds_Ok _ _ Hseen), bind_Ok_l. by eexists _, _.
Qed.

(** X21.  A fresh evaluator run, without saving, over a batch in which
    every image has detections and no image has a label: the loop
    records one all-false record per image, and [after_infer] then
    returns with the metric never updated, so the mean results and every
    entry of [get_maps] are 0.0. *)
Theorem run_unlabelled_images_reports_zeros (cfg : Config)
    (save_conf : bool) (targets : list Target) (paths : list string)
    (shapes : list (Q * Q)) (out : list nat) (h : gmap nat Tensor) :
  out ≠ [] → (∀ si, labels_of si targets = []) →
  (∀ pred, pred ∈ out → ∃ pr, h !! pred = Some pr ∧ pr ≠ []) →
  length out ≤ length paths → length out ≤ length shapes →
  ∃ st1 t st2,
    run_images cfg false save_conf false targets None None paths shapes out
      (initial_state cfg h) = Ok st1 ∧
    length (stats st1) = length out ∧ seen st1 = length out ∧
    after_infer cfg st1 = Ok (t, st2) ∧
    metric_mean_results (metric st2)
      = Ok (replicate (if mask cfg then 8 else 4) 0%Q) ∧
    metric_get_maps (metric st2) (nc cfg) = Ok (replicate (nc cfg) 0%Q).
Proof.
  intros Hne Hlab Hout Hpaths Hshapes. unfold run_images.
  assert (∀ ips st,
    (∀ ip, ip ∈ ips → (∃ pr, heap st !! ip.2 = Some pr ∧ pr ≠ []) ∧
                      ip.1 < length paths ∧ ip.1 < length shapes) →
    ∃ st' recs,
      foldl (run_images_step cfg false save_conf false targets None None
               paths shapes) (Ok st) ips = Ok st' ∧
      stats st' = stats st ++ recs ∧ length recs = length ips ∧
      Forall (λ rec, all_false (s_masks rec) ∧ all_false (s_boxes rec)) recs ∧
      seen st' = seen st + length ips ∧ metric st' = metric st) as Hloop.
  { clear Hout. induction ips as [|ip ips IH]; intros st Hips.
    { exists st, []. cbn. rewrite app_nil_r. split_and!; (done || lia). }
    destruct (Hips ip) as ((pr & Hheap & Hpr) & Hp & Hs); [left|].
    destruct (lookup_lt_is_Some_2 paths ip.1 Hp) as [stem Hstem].
    destruct (lookup_lt_is_Some_2 shapes ip.1 Hs) as [shape Hshape].
    destruct (run_image_no_labels cfg save_conf targets ip.1 ip.2 stem shape
                st pr (Hlab _) Hheap Hpr)
      as (st1 & rec & Hrun & Hst & Hm & Hb & Hseen & Hmet & _ & Hkeep).
    destruct (IH st1) as (st' & recs & Hrest & Hst' & Hlen & Hall & Hn & Hmt).
    { intros ip' Hip'.
      destruct (Hips ip') as ((pr' & Hh & ?) & ? & ?); [by right|].
      split_and!; [|done..]. exists pr'. split; [by apply Hkeep|done]. }
    exists st', (rec :: recs). cbn [foldl]. unfold run_images_step at 2.
    rewrite bind_Ok_l. unfold py_index. rewrite Hstem, Hshape, !bind_Ok_l.
    rewrite Hrun. split_and!.
    - done.
    - by rewrite Hst', Hst, <- (assoc_L (++)).
    - cbn [length]. lia.
    - by constructor.
    - cbn [length]. lia.
    - congruence. }
  destruct (Hloop (imap pair out) (initial_state cfg h))
    as (st1 & recs & Hrun & Hst & Hlen & Hall & Hseen & Hmet).
  { intros ip (i & pred & -> & Hi)%elem_of_lookup_imap. cbn.
    apply lookup_lt_Some in Hi as Hlt. split_and!; [|lia..].
    apply Hout. by eapply list_elem_of_lookup_2. }
  rewrite length_imap in Hlen, Hseen. cbn in Hst, Hseen.
  destruct (after_infer_no_hits_fresh cfg st1 h) as (t & st2 & Hai & Hm2).
  - rewrite Hst. destruct recs; [|done]. by destruct out.
  - rewrite Hseen. by destruct out.
  - by rewrite Hst.
  - done.
  - exists st1, t, st2. rewrite Hst, Hlen, Hm2, Hmet.
    destruct (initial_metric_reports cfg h) as (Hmean & Hmaps & _).
    by split_and!.
Qed.

End EndToEnd.

(** X21, witness: the two detections of [ex_pred], no label. *)
Lemma run_unlabelled_images_reports_zeros_witness :
  (∀ pred, pred ∈ [0] →
     ∃ pr, ({[ 0 := ex_pred ]} : gmap nat Tensor) !! pred = Some pr ∧ pr ≠ []) ∧
  ∃ st1 t st2,
    run_images (H := box_only) ex_config false false false [] None None
      ["im0"] [(100, 100)%Q] [0]
      (initial_state (H := box_only) ex_config {[ 0 := ex_pred ]}) = Ok st1 ∧
    after_infer (H := box_only) ex_config st1 = Ok (t, st2) ∧
    metric_mean_results (metric st2) = Ok [0; 0; 0; 0]%Q.
Proof.
  assert (∀ pred, pred ∈ [0] →
     ∃ pr, ({[ 0 := ex_pred ]} : gmap nat Tensor) !! pred = Some pr ∧ pr ≠ [])
    as Hout.
  { intros pred ->%list_elem_of_singleton. by exists ex_pred. }
  split; [exact Hout|].
  destruct (run_unlabelled_images_reports_zeros (H := box_only) ex_config
              false [] ["im0"] [(100, 100)%Q] [0] {[ 0 := ex_pred ]})
    as (st1 & t & st2 & Hrun & _ & _ & Hai & Hmean & _).
  - discriminate.
  - reflexivity.
  - exact Hout.
  - cbn. lia.
  - cbn. lia.
  - exists st1, t, st2. split_and!; [exact Hrun|exact Hai|exact Hmean].
Defined.
